(** * Notes Manager: the categorization engine and the note store

    A shallow embedding of [server/index.js]: the keyword taxonomy
    [CATEGORIES], the scoring function [categorize] with the regular
    expression it builds for every keyword, and the five request handlers
    that read and write the [notes] table.

    Text is modelled as [string], a sequence of 8-bit characters, and the
    development covers ASCII text: [toLowerCase] maps [A-Z] to [a-z],
    case-insensitive comparison folds [a-z] to [A-Z], white space is the
    six ASCII white-space characters, and every character from 128 on is
    an opaque non-word character.  Time stamps ([Date.now()]) are
    integers. *)

From Stdlib Require Import List String Ascii Bool Arith ZArith Lia Permutation Sorted.
From Stdlib Require OrderedTypeEx.
Import ListNotations.
Open Scope string_scope.
Open Scope bool_scope.
Open Scope nat_scope.

(** ** JavaScript strings *)

Module JSString.

Definition code (c : ascii) : nat := nat_of_ascii c.

Definition is_upper (c : ascii) : bool := (65 <=? code c) && (code c <=? 90).
Definition is_lower (c : ascii) : bool := (97 <=? code c) && (code c <=? 122).
Definition is_digit (c : ascii) : bool := (48 <=? code c) && (code c <=? 57).

Definition lower_char (c : ascii) : ascii :=
  if is_upper c then ascii_of_nat (code c + 32) else c.

Definition upper_char (c : ascii) : ascii :=
  if is_lower c then ascii_of_nat (code c - 32) else c.

(** [String.prototype.toLowerCase] *)
Fixpoint toLowerCase (s : string) : string :=
  match s with
  | EmptyString => EmptyString
  | String c s' => String (lower_char c) (toLowerCase s')
  end.

(** White space and line terminators removed by [trim]:
    TAB, LF, VT, FF, CR and SPACE. *)
Definition is_space (c : ascii) : bool :=
  ((9 <=? code c) && (code c <=? 13)) || (code c =? 32).

Fixpoint trimStart (s : string) : string :=
  match s with
  | EmptyString => EmptyString
  | String c s' => if is_space c then trimStart s' else s
  end.

(** [trimEnd] drops the trailing white space: a character is kept when
    it is not white space or when something is kept after it. *)
Fixpoint trimEnd (s : string) : string :=
  match s with
  | EmptyString => EmptyString
  | String c s' =>
      match trimEnd s' with
      | EmptyString => if is_space c then EmptyString else String c EmptyString
      | r => String c r
      end
  end.

(** [String.prototype.trim] *)
Definition trim (s : string) : string := trimEnd (trimStart s).

(** Truthiness of a string value: only the empty string is falsy. *)
Definition truthy (s : string) : bool :=
  match s with EmptyString => false | _ => true end.

Definition head (s : string) : option ascii :=
  match s with EmptyString => None | String c _ => Some c end.

End JSString.

(** ** Regular expressions

    The fragment of the pattern language that [categorize] can produce:
    a sequence of word-boundary assertions and single characters, matched
    with the flags [g] and [i]. *)

Module RegExp.
Import JSString.

Inductive atom : Type :=
| WordBoundary : atom
| Char : ascii -> atom.

Definition regex : Type := list atom.

(** The syntax characters of the pattern language,
    [^ $ \ . * + ? ( ) [ ] { } |]. *)
Definition is_syntax_char (c : ascii) : bool :=
  existsb (Ascii.eqb c)
    ["^"; "$"; "\"; "."; "*"; "+"; "?"; "("; ")"; "["; "]"; "{"; "}"; "|"]%char.

(** The character class [[.*+?^${}()|[\]\\]] of the replace call in
    [categorize]. *)
Definition in_escape_class (c : ascii) : bool :=
  existsb (Ascii.eqb c)
    ["."; "*"; "+"; "?"; "^"; "$"; "{"; "}"; "("; ")"; "|"; "["; "]"; "\"]%char.

(** [keyword.replace(/[.*+?^${}()|[\]\\]/g, '\\$&')]: every character of
    the class is replaced by a backslash followed by itself. *)
Fixpoint escape (keyword : string) : string :=
  match keyword with
  | EmptyString => EmptyString
  | String c k' =>
      if in_escape_class c then String "\" (String c (escape k'))
      else String c (escape k')
  end.

(** [new RegExp(pattern, 'gi')] on the fragment: [\b] is the
    word-boundary assertion, a backslash before a syntax character is an
    identity escape, any other character that is not a syntax character
    stands for itself.  [None] is a pattern outside the fragment (for a
    lone trailing backslash, a SyntaxError). *)
Fixpoint compile (pattern : string) : option regex :=
  match pattern with
  | EmptyString => Some []
  | String "\" EmptyString => None
  | String "\" (String c p') =>
      if Ascii.eqb c "b" then option_map (cons WordBoundary) (compile p')
      else if is_syntax_char c then option_map (cons (Char c)) (compile p')
      else None
  | String c p' =>
      if is_syntax_char c then None
      else option_map (cons (Char c)) (compile p')
  end.

(** [\w] without the [u] flag: [A-Za-z0-9_]. *)
Definition is_word_char (c : ascii) : bool :=
  is_upper c || is_lower c || is_digit c || Ascii.eqb c "_".

(** The positions before the first and after the last character count as
    non-word characters. *)
Definition is_word (c : option ascii) : bool :=
  match c with Some a => is_word_char a | None => false end.

(** Canonicalize of the [i] flag: the upper-case form. *)
Definition canonicalize (c : ascii) : ascii := upper_char c.

Definition char_eq_ci (c d : ascii) : bool :=
  Ascii.eqb (canonicalize c) (canonicalize d).

(** One attempt at one position: [prev] is the character before the
    position, [s] the input from the position on.  The result is the
    length of the match. *)
Fixpoint match_at (r : regex) (prev : option ascii) (s : string) : option nat :=
  match r with
  | [] => Some 0
  | WordBoundary :: r' =>
      if xorb (is_word prev) (is_word (head s)) then match_at r' prev s else None
  | Char c :: r' =>
      match s with
      | EmptyString => None
      | String d s' =>
          if char_eq_ci c d then option_map S (match_at r' (Some d) s') else None
      end
  end.

(** The matches collected by [str.match(regex)] for a global regex:
    the search tries every position from [lastIndex] on, a match moves
    [lastIndex] to its end (one further when the match is empty).
    [skip] is the number of characters still to pass before [lastIndex]
    is reached. *)
Fixpoint count_from (r : regex) (skip : nat) (prev : option ascii) (s : string) : nat :=
  match skip, s with
  | S k, EmptyString => 0
  | S k, String c s' => count_from r k (Some c) s'
  | 0, _ =>
      match match_at r prev s with
      | Some n =>
          S (match s with
             | EmptyString => 0
             | String c s' => count_from r (pred n) (Some c) s'
             end)
      | None =>
          match s with
          | EmptyString => 0
          | String c s' => count_from r 0 (Some c) s'
          end
      end
  end.

(** [(str.match(regex) || []).length] *)
Definition match_count (r : regex) (str : string) : nat :=
  count_from r 0 None str.

End RegExp.

(** ** The categorization engine *)

Module Engine.
Import JSString RegExp.

(** The taxonomy, in the order in which [Object.entries] lists it: the
    keys are strings that are not array indices, so the order is the
    order of the object literal. *)
Definition CATEGORIES : list (string * list string) :=
  [ ("Educational",
     ["study"; "exam"; "course"; "lecture"; "homework"; "university"; "college";
      "school"; "research"; "learn"; "learning"; "student"; "teacher"; "professor";
      "assignment"; "thesis"; "dissertation"; "tutorial"; "education"; "class";
      "semester"; "grade"; "textbook"; "curriculum"; "syllabus"; "academic";
      "scholarship"; "diploma"; "degree"; "knowledge"; "training"; "workshop";
      "quiz"; "test"; "chapter"; "notes"; "reading"; "essay"; "paper"]);
    ("Business",
     ["meeting"; "client"; "revenue"; "project"; "deadline"; "strategy";
      "invoice"; "budget"; "stakeholder"; "presentation"; "proposal"; "contract";
      "negotiation"; "partnership"; "marketing"; "sales"; "profit"; "loss";
      "startup"; "entrepreneur"; "customer"; "vendor"; "supplier"; "logistics";
      "operations"; "management"; "leadership"; "team"; "corporate"; "office";
      "quarterly"; "kpi"; "roi"; "target"; "pipeline"; "deal"; "agenda";
      "milestone"; "deliverable"; "report"; "analytics"; "forecast"]);
    ("Personal",
     ["family"; "birthday"; "vacation"; "hobby"; "diary"; "goal"; "friend";
      "relationship"; "wedding"; "anniversary"; "party"; "weekend"; "home";
      "garden"; "cooking"; "recipe"; "pet"; "dog"; "cat"; "kids"; "children";
      "parent"; "mom"; "dad"; "shopping"; "gift"; "memory"; "dream"; "wish";
      "journal"; "gratitude"; "love"; "emotion"; "feeling"; "personal";
      "self-care"; "mindfulness"; "meditation"; "reflection"]);
    ("Technology",
     ["code"; "programming"; "software"; "api"; "server"; "database"; "bug";
      "deploy"; "frontend"; "backend"; "algorithm"; "javascript"; "python";
      "react"; "node"; "html"; "css"; "git"; "github"; "docker"; "cloud";
      "aws"; "azure"; "linux"; "windows"; "app"; "application"; "framework";
      "library"; "component"; "function"; "variable"; "debug"; "compile";
      "ai"; "machine learning"; "data science"; "cybersecurity"; "devops";
      "microservice"; "architecture"; "terminal"; "command"; "script";
      "automation"; "testing"; "ci/cd"; "agile"; "scrum"; "tech"; "computer"]);
    ("Finance",
     ["investment"; "savings"; "bank"; "tax"; "salary"; "expense"; "loan";
      "stock"; "mutual fund"; "portfolio"; "dividend"; "interest"; "mortgage";
      "insurance"; "retirement"; "pension"; "credit"; "debit"; "payment";
      "transaction"; "accounting"; "audit"; "balance"; "income"; "wealth";
      "crypto"; "bitcoin"; "trading"; "forex"; "bond"; "equity"; "asset";
      "liability"; "inflation"; "emi"; "finance"; "financial"; "money"]);
    ("Health",
     ["exercise"; "diet"; "workout"; "doctor"; "medicine"; "sleep"; "nutrition";
      "gym"; "yoga"; "running"; "fitness"; "weight"; "calories"; "protein";
      "vitamin"; "supplement"; "hospital"; "clinic"; "therapy"; "mental health";
      "anxiety"; "depression"; "wellness"; "hydration"; "water"; "walk";
      "stretching"; "cardio"; "strength"; "recovery"; "injury"; "prescription";
      "checkup"; "blood pressure"; "heart"; "health"; "healthy"; "disease"]);
    ("Travel",
     ["flight"; "hotel"; "trip"; "destination"; "passport"; "itinerary";
      "booking"; "tour"; "airport"; "luggage"; "sightseeing"; "beach";
      "mountain"; "camping"; "hiking"; "road trip"; "cruise"; "resort";
      "backpacking"; "visa"; "ticket"; "train"; "bus"; "adventure"; "explore";
      "travel"; "journey"; "abroad"; "international"; "domestic"; "tourism";
      "landmark"; "museum"; "culture"; "restaurant"; "street food"]) ].

(** The regular expression of one keyword,
    [new RegExp('\\b' + keyword.replace(...) + '\\b', 'gi')]. *)
Definition keyword_regex (keyword : string) : option regex :=
  compile ("\b" ++ escape keyword ++ "\b").

(** The body of the inner loop: the new value of [score], or [None]
    when the constructor throws. *)
Definition score_step (titleLower contentLower : string)
    (score : nat) (keyword : string) : option nat :=
  match keyword_regex keyword with
  | Some regex =>
      let titleMatches := match_count regex titleLower in
      let contentMatches := match_count regex contentLower in
      Some (score + (titleMatches * 2 + contentMatches))
  | None => None
  end.

(** [for (const keyword of keywords) { ... }] *)
Fixpoint score_keywords (titleLower contentLower : string)
    (keywords : list string) (score : nat) : option nat :=
  match keywords with
  | [] => Some score
  | keyword :: rest =>
      match score_step titleLower contentLower score keyword with
      | Some score' => score_keywords titleLower contentLower rest score'
      | None => None
      end
  end.

(** [for (const [category, keywords] of Object.entries(CATEGORIES)) { ... }]
    over the entries that are left, with the current [bestCategory] and
    [bestScore]. *)
Fixpoint best_of (titleLower contentLower : string)
    (entries : list (string * list string))
    (bestCategory : string) (bestScore : nat) : option string :=
  match entries with
  | [] => Some bestCategory
  | (category, keywords) :: rest =>
      match score_keywords titleLower contentLower keywords 0 with
      | Some score =>
          if bestScore <? score
          then best_of titleLower contentLower rest category score
          else best_of titleLower contentLower rest bestCategory bestScore
      | None => None
      end
  end.

(** [categorize(title, content)] over a taxonomy.  The string [combined]
    that the function also builds is never read. *)
Definition categorize_in (taxonomy : list (string * list string))
    (title content : string) : option string :=
  let titleLower := toLowerCase title in
  let contentLower := toLowerCase content in
  best_of titleLower contentLower taxonomy "General" 0.

Definition categorize (title content : string) : option string :=
  categorize_in CATEGORIES title content.

End Engine.

(** ** The note store

    The [notes] table of the SQLite database is the list of its rows in
    row order.  [id] is its primary key.  Writing the database file
    ([saveDb]) leaves the table as it is and is not modelled. *)

Module Store.
Import JSString Engine.

Record Note : Type := mkNote {
  id : string;
  title : string;
  content : string;
  category : string;
  createdAt : Z;
  updatedAt : Z
}.

Definition table : Type := list Note.

(** The JSON body of a create or update request; a field that is absent
    is [None]. *)
Record Body : Type := mkBody {
  body_title : option string;
  body_content : option string;
  manualCategory : option string
}.

(** What a handler answers: 200 or 201 with a payload, 400 with the
    reason, 404, or 500 from the [catch] block. *)
Inductive response (A : Type) : Type :=
| Ok : A -> response A
| ValidationError : string -> response A
| NotFoundError : response A
| InternalError : response A.

Arguments Ok {A} _.
Arguments ValidationError {A} _.
Arguments NotFoundError {A}.
Arguments InternalError {A}.

(** *** Queries *)

(** [ORDER BY createdAt DESC]: a stable sort of the rows, the larger
    time stamp first. *)
Fixpoint insert_desc (n : Note) (rows : list Note) : list Note :=
  match rows with
  | [] => [n]
  | m :: rest =>
      if (createdAt n <? createdAt m)%Z then m :: insert_desc n rest
      else n :: m :: rest
  end.

Fixpoint order_by_createdAt_desc (rows : list Note) : list Note :=
  match rows with
  | [] => []
  | n :: rest => insert_desc n (order_by_createdAt_desc rest)
  end.

(** The [LIKE] operator of SQLite without an [ESCAPE] clause: [%] in the
    pattern stands for any sequence of characters, [_] for any one
    character, and any other character for itself, upper and lower case
    taken as equal. *)
Definition like_char (p c : ascii) : bool :=
  Ascii.eqb (upper_char p) (upper_char c).

Fixpoint like (pattern : string) : string -> bool :=
  match pattern with
  | EmptyString => fun s => match s with EmptyString => true | _ => false end
  | String p pattern' =>
      if Ascii.eqb p "%" then
        fix any (s : string) : bool :=
          like pattern' s ||
          match s with EmptyString => false | String _ s' => any s' end
      else if Ascii.eqb p "_" then
        fun s => match s with EmptyString => false | String _ s' => like pattern' s' end
      else
        fun s =>
          match s with
          | EmptyString => false
          | String c s' => like_char p c && like pattern' s'
          end
  end.

(** [SELECT * FROM notes WHERE id = ?] through [queryOne]: the first row
    with the id, if any. *)
Definition queryOne (i : string) (db : table) : option Note :=
  find (fun n => String.eqb (id n) i) db.

(** *** GET /api/notes *)
Definition get_notes (db : table) : response (list Note) :=
  Ok (order_by_createdAt_desc db).

(** *** GET /api/notes/search?q=keyword *)
Definition get_notes_search (q : option string) (db : table) : response (list Note) :=
  let keyword := match q with Some k => k | None => "" end in
  let pattern := "%" ++ keyword ++ "%" in
  Ok (order_by_createdAt_desc
        (filter (fun n => like pattern (title n) || like pattern (content n)) db)).

(** *** Statements *)

(** [INSERT INTO notes ... VALUES (...)]: the row is added at the end;
    a second row with the same primary key makes the statement throw. *)
Definition insert_row (n : Note) (db : table) : option table :=
  match queryOne (id n) db with
  | Some _ => None
  | None => Some (db ++ [n])%list
  end.

(** [UPDATE notes SET title = ?, content = ?, category = ?, updatedAt = ?
    WHERE id = ?] *)
Definition update_rows (i t c cat : string) (now : Z) (db : table) : table :=
  map (fun n =>
         if String.eqb (id n) i
         then mkNote (id n) t c cat (createdAt n) now
         else n) db.

(** [DELETE FROM notes WHERE id = ?] *)
Definition delete_rows (i : string) (db : table) : table :=
  filter (fun n => negb (String.eqb (id n) i)) db.

(** *** Validation and the category of a request *)

(** [!value || !value.trim()] *)
Definition missing (value : option string) : bool :=
  match value with
  | None => true
  | Some v => negb (truthy v) || negb (truthy (trim v))
  end.

Definition text_of (value : option string) : string :=
  match value with Some v => v | None => "" end.

(** [let category = manualCategory;
     if (!category || category === 'Auto') category = categorize(...)].
    [None] is an exception thrown by [categorize]. *)
Definition resolve_category (manual : option string)
    (trimmedTitle trimmedContent : string) : option string :=
  match manual with
  | None => categorize trimmedTitle trimmedContent
  | Some c =>
      if negb (truthy c) || String.eqb c "Auto"
      then categorize trimmedTitle trimmedContent
      else Some c
  end.

(** *** POST /api/notes

    [new_id] is the value of [crypto.randomUUID()] and [now] the value of
    [Date.now()]. *)
Definition post_note (new_id : string) (now : Z) (body : Body) (db : table)
  : table * response Note :=
  if missing (body_title body) then (db, ValidationError "Title is required")
  else if missing (body_content body) then (db, ValidationError "Content is required")
  else
    let trimmedTitle := trim (text_of (body_title body)) in
    let trimmedContent := trim (text_of (body_content body)) in
    match resolve_category (manualCategory body) trimmedTitle trimmedContent with
    | None => (db, InternalError)
    | Some cat =>
        let note := mkNote new_id trimmedTitle trimmedContent cat now now in
        match insert_row note db with
        | None => (db, InternalError)
        | Some db' => (db', Ok note)
        end
    end.

(** *** PUT /api/notes/:id *)
Definition put_note (i : string) (now : Z) (body : Body) (db : table)
  : table * response Note :=
  match queryOne i db with
  | None => (db, NotFoundError)
  | Some existing =>
      if missing (body_title body) then (db, ValidationError "Title is required")
      else if missing (body_content body) then (db, ValidationError "Content is required")
      else
        let trimmedTitle := trim (text_of (body_title body)) in
        let trimmedContent := trim (text_of (body_content body)) in
        match resolve_category (manualCategory body) trimmedTitle trimmedContent with
        | None => (db, InternalError)
        | Some cat =>
            (update_rows i trimmedTitle trimmedContent cat now db,
             Ok (mkNote (id existing) trimmedTitle trimmedContent cat
                        (createdAt existing) now))
        end
  end.

(** *** DELETE /api/notes/:id *)
Definition delete_note (i : string) (db : table) : table * response unit :=
  match queryOne i db with
  | None => (db, NotFoundError)
  | Some _ => (delete_rows i db, Ok tt)
  end.

(** *** Sequences of requests *)

Inductive request : Type :=
| Create (new_id : string) (now : Z) (body : Body)
| Update (i : string) (now : Z) (body : Body)
| Delete (i : string)
| ListAll
| Search (q : option string).

(** The table after a request. *)
Definition step (db : table) (r : request) : table :=
  match r with
  | Create new_id now body => fst (post_note new_id now body db)
  | Update i now body => fst (put_note i now body db)
  | Delete i => fst (delete_note i db)
  | ListAll => db
  | Search _ => db
  end.

Definition run (db : table) (rs : list request) : table := fold_left step rs db.

(** The eight labels. *)
Definition known_labels : list string :=
  ["Business"; "Educational"; "Personal"; "Technology"; "Finance"; "Health";
   "Travel"; "General"].

End Store.

(** ** Notions the properties are stated with *)

Module Notions.
Import JSString RegExp Engine Store.

(** The keyword as a sequence of literal characters. *)
Definition literal (keyword : string) : regex :=
  map Char (list_ascii_of_string keyword).

(** The keyword between two word boundaries. *)
Definition bounded (keyword : string) : regex :=
  WordBoundary :: literal keyword ++ [WordBoundary].

(** The number of matches of the bounded keyword in a text. *)
Definition occurrences (keyword text : string) : nat :=
  match_count (bounded keyword) text.

(** Two texts of the same length that agree up to the case of letters. *)
Fixpoint eq_ci (k s : string) : bool :=
  match k, s with
  | EmptyString, EmptyString => true
  | String c k', String d s' => char_eq_ci c d && eq_ci k' s'
  | _, _ => false
  end.

Fixpoint last_char (s : string) : option ascii :=
  match s with
  | EmptyString => None
  | String c EmptyString => Some c
  | String _ s' => last_char s'
  end.

(** The character before the position that follows [mid]. *)
Definition prev_after (prev : option ascii) (mid : string) : option ascii :=
  match last_char mid with Some c => Some c | None => prev end.

(** A keyword that begins and ends with a word character. *)
Definition word_delimited (keyword : string) : bool :=
  is_word (head keyword) && is_word (last_char keyword).

(** What the keywords of a category add up to. *)
Definition points (titleLower contentLower keyword : string) : nat :=
  2 * occurrences keyword titleLower + 1 * occurrences keyword contentLower.

Definition category_score (titleLower contentLower : string)
    (keywords : list string) : nat :=
  list_sum (map (points titleLower contentLower) keywords).

(** [a] is, up to case, the beginning of [b]. *)
Fixpoint prefix_ci (a b : string) : bool :=
  match a, b with
  | EmptyString, _ => true
  | String c a', String d b' => char_eq_ci c d && prefix_ci a' b'
  | String _ _, EmptyString => false
  end.

(** The number of positions of a text at which the expression matches,
    whether the matches overlap or not. *)
Fixpoint count_positions (r : regex) (prev : option ascii) (s : string) : nat :=
  (match match_at r prev s with Some _ => 1 | None => 0 end)
  + match s with
    | EmptyString => 0
    | String c s' => count_positions r (Some c) s'
    end.

(** No match starts at any of the next [skip] positions. *)
Fixpoint no_match_within (r : regex) (skip : nat) (prev : option ascii) (s : string) : Prop :=
  match skip with
  | 0 => True
  | S k =>
      match_at r prev s = None
      /\ match s with
         | EmptyString => True
         | String c s' => no_match_within r k (Some c) s'
         end
  end.

(** No copy of the keyword can begin inside another one: at no inner
    position does a word boundary come together with a remainder that
    is the beginning of the keyword.  [p] is the character before
    [rest]. *)
Fixpoint overlap_free_from (k : string) (p : ascii) (rest : string) : bool :=
  match rest with
  | EmptyString => true
  | String c rest' =>
      (negb (xorb (is_word_char p) (is_word_char c)) || negb (prefix_ci rest k))
      && overlap_free_from k c rest'
  end.

Definition overlap_free (k : string) : bool :=
  match k with
  | EmptyString => true
  | String c rest => overlap_free_from k c rest
  end.

(** Plain substring containment, up to case. *)
Fixpoint contains_ci (keyword text : string) : bool :=
  prefix_ci keyword text ||
  match text with
  | EmptyString => false
  | String _ text' => contains_ci keyword text'
  end.


(** The notes of a 200 answer. *)
Definition payload (r : response (list Note)) : list Note :=
  match r with Ok notes => notes | _ => [] end.

Definition listAll (db : table) : list Note := payload (get_notes db).
Definition search (keyword : string) (db : table) : list Note :=
  payload (get_notes_search (Some keyword) db).

(** Most recent first. *)
Definition newer_first (n m : Note) : Prop := (createdAt m <= createdAt n)%Z.

(** The id is the key of some row. *)
Definition present (i : string) (db : table) : Prop := In i (map id db).

(** Every row carries one of the eight labels. *)
Definition all_known (db : table) : Prop :=
  Forall (fun n => In (category n) known_labels) db.

(** The category choice of a request leaves the decision to the engine
    or names one of the eight labels. *)
Definition choice_known (body : Body) : Prop :=
  match manualCategory body with
  | None => True
  | Some c => c = "" \/ c = "Auto" \/ In c known_labels
  end.

Definition request_known (r : request) : Prop :=
  match r with
  | Create _ _ body => choice_known body
  | Update _ _ body => choice_known body
  | _ => True
  end.

(** The request is not a create that brings the id [i]. *)
Definition not_creating (i : string) (r : request) : Prop :=
  match r with
  | Create new_id _ _ => new_id <> i
  | _ => True
  end.

(** A field that is empty after trimming; an absent field counts as
    empty. *)
Definition empty_after_trim (value : option string) : Prop :=
  trim (text_of value) = "".

End Notions.

(** ** The categories in use *)

Module Categories.
Import JSString Engine Store.

(** The values without repetition, each at the place of its first
    occurrence: [SELECT DISTINCT], and the elements of [new Set(values)]
    in insertion order. *)
Definition add_value (seen : list string) (v : string) : list string :=
  if existsb (String.eqb v) seen then seen else (seen ++ [v])%list.

Definition distinct (values : list string) : list string :=
  fold_left add_value values [].

(** Ascending order of the character codes: [ORDER BY category] under
    the default collation, and [Array.prototype.sort] without a
    comparison function. *)
Fixpoint insert_asc (v : string) (sorted : list string) : list string :=
  match sorted with
  | [] => [v]
  | w :: rest => if String.leb v w then v :: sorted else w :: insert_asc v rest
  end.

Fixpoint sort_asc (values : list string) : list string :=
  match values with
  | [] => []
  | v :: rest => insert_asc v (sort_asc rest)
  end.

(** *** GET /api/categories *)
Definition get_categories (db : table) : response (list string) :=
  Ok (sort_asc (distinct (map category db))).

End Categories.

(** ** The start of the server *)

Module Migration.
Import JSString Engine Store.

(** A row of a [notes] table that was created before the column
    [category] existed. *)
Record LegacyNote : Type := mkLegacy {
  legacy_id : string;
  legacy_title : string;
  legacy_content : string;
  legacy_createdAt : Z;
  legacy_updatedAt : Z
}.

(** What [initDb] finds at [DB_PATH]: no file, a table with the column
    [category], or a table without it. *)
Inductive database_file : Type :=
| NoFile : database_file
| Current : table -> database_file
| Legacy : list LegacyNote -> database_file.

(** [ALTER TABLE notes ADD COLUMN category TEXT NOT NULL DEFAULT 'General'] *)
Definition add_category_column (rows : list LegacyNote) : table :=
  map (fun r => mkNote (legacy_id r) (legacy_title r) (legacy_content r) "General"
                  (legacy_createdAt r) (legacy_updatedAt r)) rows.

(** [UPDATE notes SET category = ? WHERE id = ?] *)
Definition set_category (cat i : string) (db : table) : table :=
  map (fun n =>
         if String.eqb (id n) i
         then mkNote (id n) (title n) (content n) cat (createdAt n) (updatedAt n)
         else n) db.

(** [for (const note of existingNotes) { ... }] over the rows of
    [SELECT id, title, content FROM notes]; an exception leaves the loop
    through the [catch] block with the table as it then is. *)
Fixpoint recategorize (existingNotes : list (string * string * string))
    (db : table) : table :=
  match existingNotes with
  | [] => db
  | (note_id, note_title, note_content) :: rest =>
      match categorize note_title note_content with
      | Some cat => recategorize rest (set_category cat note_id db)
      | None => db
      end
  end.

(** [initDb()]: the table with which the server starts. *)
Definition initDb (file : database_file) : table :=
  match file with
  | NoFile => []
  | Current notes => notes
  | Legacy rows =>
      let db := add_category_column rows in
      let existingNotes := map (fun n => (id n, title n, content n)) db in
      recategorize existingNotes db
  end.

End Migration.

(** ** The client

    The hook [useNotes] keeps the list [notes]; its functions are given
    here by what they make of the list when the answer of the server
    arrives.  A request that fails, or an answer that is not [ok], leaves
    the list as it is. *)

Module Client.
Import JSString Engine Store Categories.

(** [String.prototype.includes] *)
Fixpoint starts_with (sub s : string) : bool :=
  match sub, s with
  | EmptyString, _ => true
  | String c sub', String d s' => Ascii.eqb c d && starts_with sub' s'
  | String _ _, EmptyString => false
  end.

Fixpoint includes (s sub : string) : bool :=
  starts_with sub s ||
  match s with
  | EmptyString => false
  | String _ s' => includes s' sub
  end.





(** [searchNotes(keyword)] *)
Definition searchNotes (keyword : string) (notes : list Note) : list Note :=
  if negb (truthy (trim keyword)) then notes
  else
    let lowerKeyword := trim (toLowerCase keyword) in
    filter (fun note =>
              includes (toLowerCase (title note)) lowerKeyword
              || includes (toLowerCase (content note)) lowerKeyword) notes.

(** [getNoteById(id)] *)
Definition getNoteById (i : string) (notes : list Note) : option Note :=
  find (fun note => String.eqb (id note) i) notes.


(** *** The form *)

Record NoteFormData : Type := mkForm {
  form_title : string;
  form_content : string;
  form_category : option string
}.

Record FormErrors : Type := mkErrors {
  error_title : option string;
  error_content : option string
}.

(** [JSON.stringify(data)] as the body of the request. *)
Definition body_of (data : NoteFormData) : Body :=
  mkBody (Some (form_title data)) (Some (form_content data)) (form_category data).

(** [useState(initialData?.category || 'Auto')] *)
Definition initial_category (initialData : option NoteFormData) : string :=
  match initialData with
  | Some data =>
      match form_category data with
      | Some c => if truthy c then c else "Auto"
      | None => "Auto"
      end
  | None => "Auto"
  end.

(** [handleSubmit] of [NoteForm] with the state [title], [content] and
    [category]: the errors that it sets, or the data that it hands to
    [onSubmit]. *)
Definition handleSubmit (title content category : string) : FormErrors + NoteFormData :=
  let newErrors :=
    mkErrors (if negb (truthy (trim title)) then Some "Title is required" else None)
             (if negb (truthy (trim content)) then Some "Content is required" else None) in
  match error_title newErrors, error_content newErrors with
  | None, None => inr (mkForm title content (Some category))
  | _, _ => inl newErrors
  end.

(** The keys of [CATEGORY_STYLES], in the order of the object literal. *)
Definition CATEGORY_STYLES : list string :=
  ["Educational"; "Business"; "Personal"; "Technology"; "Finance"; "Health";
   "Travel"; "General"].

(** The values of the [SelectItem]s of the form. *)
Definition category_options : list string :=
  "Auto" :: CATEGORY_STYLES.

(** *** The page *)

(** [Array.from(new Set(notes.map(n => n.category))).sort()] *)
Definition availableCategories (notes : list Note) : list string :=
  sort_asc (distinct (map category notes)).

(** [filteredNotes] for the state [searchQuery] and [selectedCategory]. *)
Definition filteredNotes (searchQuery : string) (selectedCategory : option string)
    (notes : list Note) : list Note :=
  let result := searchNotes searchQuery notes in
  match selectedCategory with
  | Some c =>
      if truthy c then filter (fun n => String.eqb (category n) c) result else result
  | None => result
  end.

End Client.

(** ** Further notions *)

Module MoreNotions.
Import JSString Engine Store Notions Categories Migration Client.

(** The ids of the table are pairwise different. *)
Definition unique_ids (db : table) : Prop := NoDup (map id db).

(** The text does not begin with white space. *)
Definition starts_clean (s : string) : Prop :=
  match s with EmptyString => True | String c _ => is_space c = false end.

(** A text as the handlers store it: not empty, and without white space
    at either end. *)
Definition trimmed (s : string) : Prop := s <> "" /\ trim s = s.

Definition texts_trimmed (db : table) : Prop :=
  Forall (fun n => trimmed (title n) /\ trimmed (content n)) db.

(** No note was updated before it was created. *)
Definition times_ordered (db : table) : Prop :=
  Forall (fun n => (createdAt n <= updatedAt n)%Z) db.

(** The time of a create or an update. *)
Definition request_time (r : request) : option Z :=
  match r with
  | Create _ now _ => Some now
  | Update _ now _ => Some now
  | _ => None
  end.

(** The request does not come before the creation of any stored note. *)
Definition not_before (db : table) (r : request) : Prop :=
  match request_time r with
  | Some now => Forall (fun n => (createdAt n <= now)%Z) db
  | None => True
  end.


(** The note matches the pattern [%keyword%] in its title or content. *)
Definition like_match (keyword : string) (n : Note) : bool :=
  like ("%" ++ keyword ++ "%") (title n) || like ("%" ++ keyword ++ "%") (content n).

(** The note contains the keyword, up to case, in its title or content. *)
Definition contains_match (keyword : string) (n : Note) : bool :=
  contains_ci keyword (title n) || contains_ci keyword (content n).

(** Strictly ascending order of strings. *)
Definition string_lt (a b : string) : Prop := String.compare a b = Lt.

(** The category that the engine gives to a text. *)
Definition engine_label (t c : string) : string :=
  match categorize t c with Some cat => cat | None => "General" end.

(** The note with the label of the first of the pending notes that has
    its id, if there is one. *)
Definition with_label (pending : list Note) (n : Note) : Note :=
  match find (fun p => String.eqb (id p) (id n)) pending with
  | Some p => mkNote (id n) (title n) (content n) (engine_label (title p) (content p))
                (createdAt n) (updatedAt n)
  | None => n
  end.

(** The answer of GET /api/categories. *)
Definition categories_in_use (db : table) : list string :=
  match get_categories db with Ok cats => cats | _ => [] end.

(** Some keyword of the list occurs in the lower-cased title or content. *)
Definition keyword_occurs (title content : string) (keywords : list string) : Prop :=
  exists k, In k keywords
            /\ 0 < occurrences k (toLowerCase title) + occurrences k (toLowerCase content).

(** The row of the migrated table that belongs to a legacy row. *)
Definition migrated (r : LegacyNote) (n : Note) : Prop :=
  id n = legacy_id r /\ title n = legacy_title r /\ content n = legacy_content r
  /\ createdAt n = legacy_createdAt r /\ updatedAt n = legacy_updatedAt r
  /\ categorize (legacy_title r) (legacy_content r) = Some (category n).

(** A category that the form can hold for a table: a value of the
    select, or the category with which the edit dialog of a stored note
    opens. *)
Definition form_choice (db : table) (c : string) : Prop :=
  In c category_options
  \/ exists n, In n db
       /\ c = initial_category (Some (mkForm (title n) (content n) (Some (category n)))).

End MoreNotions.

(** * Properties *)

(** ** Characters *)

Module CharFacts.
Import JSString RegExp.

Ltac ascii_cases c := destruct c as [[] [] [] [] [] [] [] []].

Lemma class_is_syntax (c : ascii) : in_escape_class c = is_syntax_char c.
Proof. ascii_cases c; reflexivity. Qed.

Lemma is_word_upper (c : ascii) : is_word_char (upper_char c) = is_word_char c.
Proof. ascii_cases c; reflexivity. Qed.

Lemma upper_lower (c : ascii) : upper_char (lower_char c) = upper_char c.
Proof. ascii_cases c; reflexivity. Qed.

Lemma upper_upper (c : ascii) : upper_char (upper_char c) = upper_char c.
Proof. ascii_cases c; reflexivity. Qed.

Lemma char_eq_ci_refl (c : ascii) : char_eq_ci c c = true.
Proof. unfold char_eq_ci. apply Ascii.eqb_refl. Qed.

Lemma char_eq_ci_upper (c d : ascii) :
  char_eq_ci c d = true <-> upper_char c = upper_char d.
Proof. unfold char_eq_ci, canonicalize. apply Ascii.eqb_eq. Qed.

Lemma char_eq_ci_sym (c d : ascii) : char_eq_ci c d = char_eq_ci d c.
Proof. unfold char_eq_ci. apply Ascii.eqb_sym. Qed.

Lemma char_eq_ci_word (c d : ascii) :
  char_eq_ci c d = true -> is_word_char c = is_word_char d.
Proof.
  intros H. apply char_eq_ci_upper in H.
  rewrite <- (is_word_upper c), <- (is_word_upper d). now rewrite H.
Qed.

Lemma char_eq_ci_trans_l (c d e : ascii) :
  char_eq_ci c d = true -> char_eq_ci c e = char_eq_ci d e.
Proof.
  intros H. apply char_eq_ci_upper in H.
  unfold char_eq_ci, canonicalize. now rewrite H.
Qed.

Lemma char_eq_ci_trans_r (c d e : ascii) :
  char_eq_ci d e = true -> char_eq_ci c d = char_eq_ci c e.
Proof.
  intros H. apply char_eq_ci_upper in H.
  unfold char_eq_ci, canonicalize. now rewrite H.
Qed.

Lemma char_eq_ci_lower (c : ascii) : char_eq_ci (lower_char c) c = true.
Proof. apply char_eq_ci_upper, upper_lower. Qed.

End CharFacts.

(** ** The regular expression of a keyword *)

Module RegExpFacts.
Import JSString RegExp Engine Notions CharFacts.

Lemma compile_plain (c : ascii) (p : string) :
  is_syntax_char c = false ->
  compile (String c p) = option_map (cons (Char c)) (compile p).
Proof. ascii_cases c; intros H; try discriminate H; reflexivity. Qed.

Lemma compile_escaped (c : ascii) (p : string) :
  is_syntax_char c = true ->
  compile (String "\" (String c p)) = option_map (cons (Char c)) (compile p).
Proof. ascii_cases c; intros H; try discriminate H; reflexivity. Qed.

Lemma compile_escape (k p : string) :
  compile (escape k ++ p) = option_map (app (literal k)) (compile p).
Proof.
  induction k as [|c k IH]; simpl.
  - now destruct (compile p).
  - rewrite class_is_syntax. destruct (is_syntax_char c) eqn:E.
    + change (String "\" (String c (escape k)) ++ p)
        with (String "\" (String c (escape k ++ p))).
      rewrite compile_escaped, IH by assumption. now destruct (compile p).
    + change (String c (escape k) ++ p) with (String c (escape k ++ p)).
      rewrite compile_plain, IH by assumption. now destruct (compile p).
Qed.

(** The constructor never throws, and the keyword is taken literally. *)
Lemma keyword_regex_bounded (k : string) : keyword_regex k = Some (bounded k).
Proof.
  unfold keyword_regex.
  change ("\b" ++ escape k ++ "\b") with (String "\" (String "b" (escape k ++ "\b"))).
  change (compile (String "\" (String "b" (escape k ++ "\b"))))
    with (option_map (cons WordBoundary) (compile (escape k ++ "\b"))).
  rewrite compile_escape. reflexivity.
Qed.

(** *** One attempt *)

Lemma eq_ci_nil_l (s : string) : eq_ci "" s = true -> s = "".
Proof. destruct s; [reflexivity | discriminate]. Qed.

Lemma eq_ci_cons_l (c : ascii) (k s : string) :
  eq_ci (String c k) s = true ->
  exists d s', s = String d s' /\ char_eq_ci c d = true /\ eq_ci k s' = true.
Proof.
  destruct s as [|d s']; simpl; [discriminate|].
  intros H. apply andb_true_iff in H. now exists d, s'.
Qed.

Lemma eq_ci_length (k s : string) : eq_ci k s = true -> length s = length k.
Proof.
  revert s. induction k as [|c k IH]; intros s H.
  - now rewrite (eq_ci_nil_l _ H).
  - destruct (eq_ci_cons_l _ _ _ H) as (d & s' & -> & _ & H'). simpl. now rewrite (IH _ H').
Qed.

Lemma eq_ci_head (k s : string) :
  eq_ci k s = true -> is_word (head k) = is_word (head s).
Proof.
  destruct k as [|c k]; intros H.
  - now rewrite (eq_ci_nil_l _ H).
  - destruct (eq_ci_cons_l _ _ _ H) as (d & s' & -> & Hc & _). simpl.
    now apply char_eq_ci_word.
Qed.

Lemma eq_ci_last (k s : string) :
  eq_ci k s = true -> is_word (last_char k) = is_word (last_char s).
Proof.
  revert s. induction k as [|c k IH]; intros s H.
  - now rewrite (eq_ci_nil_l _ H).
  - destruct (eq_ci_cons_l _ _ _ H) as (d & s' & -> & Hc & H').
    destruct k as [|c' k].
    + rewrite (eq_ci_nil_l _ H'). simpl. now apply char_eq_ci_word.
    + destruct (eq_ci_cons_l _ _ _ H') as (d' & s'' & -> & _ & _).
      change (is_word (last_char (String c' k)) = is_word (last_char (String d' s''))).
      now apply IH.
Qed.

Lemma last_char_cons (d : ascii) (s : string) :
  last_char (String d s) = prev_after (Some d) s.
Proof.
  unfold prev_after. revert d. induction s as [|e s IH]; intros d; [reflexivity|].
  change (last_char (String d (String e s))) with (last_char (String e s)).
  rewrite IH. unfold prev_after. now destruct (last_char s).
Qed.

Lemma prev_after_cons (prev : option ascii) (d : ascii) (s : string) :
  prev_after prev (String d s) = prev_after (Some d) s.
Proof.
  unfold prev_after at 1. rewrite last_char_cons.
  unfold prev_after. now destruct (last_char s).
Qed.

Lemma match_at_literal (k : string) (r : regex) :
  forall prev mid post,
    eq_ci k mid = true ->
    match_at (literal k ++ r)%list prev (mid ++ post)
    = option_map (Nat.add (length k)) (match_at r (prev_after prev mid) post).
Proof.
  induction k as [|c k IH]; intros prev mid post H.
  - rewrite (eq_ci_nil_l _ H). simpl. unfold prev_after. simpl.
    now destruct (match_at r prev post).
  - destruct (eq_ci_cons_l _ _ _ H) as (d & mid' & -> & Hc & H').
    change (literal (String c k) ++ r)%list with (Char c :: (literal k ++ r)%list)%list.
    simpl. rewrite Hc, (IH (Some d) mid' post H'), prev_after_cons.
    now destruct (match_at r (prev_after (Some d) mid') post).
Qed.

Lemma match_at_literal_inv (k : string) (r : regex) :
  forall prev s n,
    match_at (literal k ++ r)%list prev s = Some n ->
    exists mid post, s = mid ++ post /\ eq_ci k mid = true /\ length k <= n.
Proof.
  induction k as [|c k IH]; intros prev s n H.
  - exists "", s. repeat split. simpl. lia.
  - change (literal (String c k) ++ r)%list with (Char c :: (literal k ++ r)%list)%list in H.
    simpl in H. destruct s as [|d s']; [discriminate|].
    destruct (char_eq_ci c d) eqn:Hc; [|discriminate].
    destruct (match_at (literal k ++ r)%list (Some d) s') as [m|] eqn:Hm; [|discriminate].
    destruct (IH _ _ _ Hm) as (mid & post & -> & He & Hl).
    injection H as <-. exists (String d mid), post. repeat split.
    + simpl. now rewrite Hc.
    + simpl. lia.
Qed.

Lemma match_at_boundary (prev : option ascii) (s : string) :
  match_at [WordBoundary] prev s
  = if xorb (is_word prev) (is_word (head s)) then Some 0 else None.
Proof. reflexivity. Qed.

(** A match of the bounded keyword is a copy of the keyword, up to case. *)
Lemma match_at_bounded_inv (k : string) (prev : option ascii) (s : string) (n : nat) :
  match_at (bounded k) prev s = Some n ->
  exists mid post, s = mid ++ post /\ eq_ci k mid = true /\ n = length k.
Proof.
  unfold bounded. simpl.
  destruct (xorb (is_word prev) (is_word (head s))); [|discriminate].
  intros H. destruct (match_at_literal_inv _ _ _ _ _ H) as (mid & post & -> & He & _).
  rewrite (match_at_literal _ _ _ _ _ He), match_at_boundary in H.
  exists mid, post. repeat split; trivial.
  destruct (xorb _ _); simpl in H; [|discriminate]. injection H as <-. lia.
Qed.

Lemma head_app_word (k mid post : string) :
  is_word (head k) = true -> eq_ci k mid = true ->
  is_word (head (mid ++ post)) = true.
Proof.
  intros Hk He. rewrite (eq_ci_head _ _ He) in Hk.
  destruct mid; [discriminate Hk | exact Hk].
Qed.

(** A copy of a word-delimited keyword matches exactly when neither
    neighbour is a word character. *)
Lemma match_at_bounded (k : string) (prev : option ascii) (mid post : string) :
  word_delimited k = true -> eq_ci k mid = true ->
  match_at (bounded k) prev (mid ++ post)
  = if is_word prev || is_word (head post) then None else Some (length k).
Proof.
  intros Hw He. apply andb_true_iff in Hw as [Hh Hl].
  unfold bounded. simpl.
  rewrite (head_app_word _ _ _ Hh He), (match_at_literal _ _ _ _ _ He), match_at_boundary.
  assert (Hp : is_word (prev_after prev mid) = true).
  { rewrite (eq_ci_last _ _ He) in Hl. unfold prev_after.
    destruct (last_char mid); [exact Hl | discriminate Hl]. }
  rewrite Hp. destruct (is_word prev), (is_word (head post)); simpl; trivial.
  f_equal. lia.
Qed.

(** *** Case *)

Lemma match_at_ci (r : regex) :
  forall prev prev' s s',
    is_word prev = is_word prev' -> eq_ci s s' = true ->
    match_at r prev s = match_at r prev' s'.
Proof.
  induction r as [|[|c] r IH]; intros prev prev' s s' Hp He; [reflexivity| |].
  - simpl. rewrite Hp, (eq_ci_head _ _ He), (IH _ _ _ _ Hp He). reflexivity.
  - destruct s as [|d s].
    + now rewrite (eq_ci_nil_l _ He).
    + destruct (eq_ci_cons_l _ _ _ He) as (d' & t & -> & Hc & He'). simpl.
      rewrite <- (char_eq_ci_trans_r c _ _ Hc).
      rewrite (IH (Some d) (Some d') s t); trivial.
      simpl. now apply char_eq_ci_word.
Qed.

Lemma count_from_ci (r : regex) :
  forall s s' skip prev prev',
    is_word prev = is_word prev' -> eq_ci s s' = true ->
    count_from r skip prev s = count_from r skip prev' s'.
Proof.
  induction s as [|d s IH]; intros s' skip prev prev' Hp He.
  - rewrite (eq_ci_nil_l _ He). destruct skip; simpl; [|reflexivity].
    now rewrite (match_at_ci r prev prev' "" "" Hp).
  - destruct (eq_ci_cons_l _ _ _ He) as (d' & t & -> & Hc & He').
    assert (Hd : is_word (Some d) = is_word (Some d')) by (simpl; now apply char_eq_ci_word).
    destruct skip as [|k]; simpl.
    + rewrite (match_at_ci r prev prev' (String d s) (String d' t) Hp He).
      destruct (match_at r prev' (String d' t)); now rewrite (IH t _ _ _ Hd He').
    + now apply IH.
Qed.

Lemma eq_ci_toLowerCase (s : string) : eq_ci (toLowerCase s) s = true.
Proof. induction s as [|c s IH]; simpl; [reflexivity|]. now rewrite char_eq_ci_lower. Qed.

Lemma occurrences_ci (k s s' : string) :
  eq_ci s s' = true -> occurrences k s = occurrences k s'.
Proof. intros H. unfold occurrences, match_count. now apply count_from_ci. Qed.

(** *** Matches that cannot overlap *)

Lemma count_from_positions (r : regex) :
  (forall prev s n,
      match_at r prev s = Some n ->
      match s with
      | EmptyString => True
      | String c s' => no_match_within r (pred n) (Some c) s'
      end) ->
  forall s skip prev,
    no_match_within r skip prev s -> count_from r skip prev s = count_positions r prev s.
Proof.
  intros Hno. induction s as [|c s IH]; intros skip prev H.
  - destruct skip as [|k]; simpl in *.
    + destruct (match_at r prev ""); reflexivity.
    + destruct H as [-> _]. reflexivity.
  - destruct skip as [|k]; simpl in *.
    + destruct (match_at r prev (String c s)) as [n|] eqn:E.
      * simpl. f_equal. apply IH. exact (Hno _ _ _ E).
      * simpl. apply IH. exact I.
    + destruct H as [-> H]. now apply IH.
Qed.

Lemma prefix_ci_eq_ci (a : string) :
  forall a' b, eq_ci a a' = true -> prefix_ci a b = prefix_ci a' b.
Proof.
  induction a as [|c a IH]; intros a' b H.
  - now rewrite (eq_ci_nil_l _ H).
  - destruct (eq_ci_cons_l _ _ _ H) as (d & t & -> & Hc & H').
    destruct b as [|e b]; simpl; [reflexivity|].
    now rewrite (char_eq_ci_trans_l _ _ e Hc), (IH t b H').
Qed.

Lemma prefix_ci_of_copy (m : string) :
  forall k mid post post',
    eq_ci k mid = true -> m ++ post = mid ++ post' -> length m <= length k ->
    prefix_ci m k = true.
Proof.
  induction m as [|d m IH]; intros k mid post post' He Hs Hl; [reflexivity|].
  destruct k as [|c k]; [simpl in Hl; lia|].
  destruct (eq_ci_cons_l _ _ _ He) as (d' & mid' & -> & Hc & He').
  simpl in Hs. injection Hs as -> Hs. simpl.
  rewrite char_eq_ci_sym, Hc. simpl in Hl.
  apply (IH k mid' post post'); trivial. lia.
Qed.

Lemma inner_positions_fail (k post : string) :
  forall rest mrest p q,
    eq_ci rest mrest = true -> char_eq_ci p q = true ->
    overlap_free_from k p rest = true -> length rest <= length k ->
    no_match_within (bounded k) (length mrest) (Some q) (mrest ++ post).
Proof.
  induction rest as [|c rest IH]; intros mrest p q He Hpq Hf Hl.
  - rewrite (eq_ci_nil_l _ He). exact I.
  - destruct (eq_ci_cons_l _ _ _ He) as (d & mr & -> & Hc & He').
    cbn [overlap_free_from] in Hf. apply andb_true_iff in Hf as [Hf1 Hf2].
    change (no_match_within (bounded k) (S (length mr)) (Some q) (String d (mr ++ post))).
    split.
    + destruct (match_at (bounded k) (Some q) (String d (mr ++ post))) as [n|] eqn:E; trivial.
      exfalso.
      assert (Hb : xorb (is_word_char q) (is_word_char d) = true).
      { unfold bounded in E. simpl in E.
        destruct (xorb (is_word_char q) (is_word_char d)); [reflexivity | discriminate E]. }
      rewrite <- (char_eq_ci_word _ _ Hpq), <- (char_eq_ci_word _ _ Hc) in Hb.
      rewrite Hb in Hf1. cbn [negb orb] in Hf1. apply negb_true_iff in Hf1.
      destruct (match_at_bounded_inv _ _ _ _ E) as (mid' & post' & Hs & Hk & _).
      rewrite (prefix_ci_eq_ci _ _ k He) in Hf1.
      rewrite (prefix_ci_of_copy (String d mr) k mid' post post' Hk Hs) in Hf1;
        [discriminate Hf1|].
      rewrite (eq_ci_length _ _ He). exact Hl.
    + apply (IH mr c d); trivial. simpl in Hl. lia.
Qed.

Lemma bounded_no_overlap (k : string) :
  overlap_free k = true ->
  forall prev s n,
    match_at (bounded k) prev s = Some n ->
    match s with
    | EmptyString => True
    | String c s' => no_match_within (bounded k) (pred n) (Some c) s'
    end.
Proof.
  intros Hf prev s n H.
  destruct (match_at_bounded_inv _ _ _ _ H) as (mid & post & -> & He & ->).
  destruct k as [|c k].
  - rewrite (eq_ci_nil_l _ He). simpl. destruct post; exact I.
  - destruct (eq_ci_cons_l _ _ _ He) as (d & mr & -> & Hc & He').
    simpl. rewrite <- (eq_ci_length _ _ He').
    apply (inner_positions_fail (String c k) post k mr c d); trivial.
    simpl. lia.
Qed.

(** For a keyword whose copies cannot overlap, the matches that the
    global search collects are all the positions at which the bounded
    keyword matches. *)
Lemma occurrences_positions (k s : string) :
  overlap_free k = true -> occurrences k s = count_positions (bounded k) None s.
Proof.
  intros H. unfold occurrences, match_count.
  apply count_from_positions; [now apply bounded_no_overlap | exact I].
Qed.

Lemma taxonomy_overlap_free (category : string) (keywords : list string) (k : string) :
  In (category, keywords) CATEGORIES -> In k keywords -> overlap_free k = true.
Proof.
  assert (H : forallb (fun e => forallb overlap_free (snd e)) CATEGORIES = true)
    by (vm_compute; reflexivity).
  rewrite forallb_forall in H. intros He Hk.
  specialize (H _ He). simpl in H. rewrite forallb_forall in H. now apply H.
Qed.

(** *** The keywords of the taxonomy *)

Lemma taxonomy_word_delimited (category : string) (keywords : list string) (k : string) :
  In (category, keywords) CATEGORIES -> In k keywords -> word_delimited k = true.
Proof.
  assert (H : forallb (fun e => forallb word_delimited (snd e)) CATEGORIES = true)
    by (vm_compute; reflexivity).
  rewrite forallb_forall in H. intros He Hk.
  specialize (H _ He). simpl in H. rewrite forallb_forall in H. now apply H.
Qed.

End RegExpFacts.

(** ** The scoring loop and the choice of the best category *)

Module EngineFacts.
Import JSString RegExp Engine Notions CharFacts RegExpFacts.

Section Scoring.
Variables titleLower contentLower : string.

Lemma score_step_points (score : nat) (k : string) :
  score_step titleLower contentLower score k
  = Some (score + points titleLower contentLower k).
Proof.
  unfold score_step. rewrite keyword_regex_bounded.
  unfold points, occurrences. f_equal. lia.
Qed.

Lemma score_keywords_sum (keywords : list string) :
  forall score,
    score_keywords titleLower contentLower keywords score
    = Some (score + category_score titleLower contentLower keywords).
Proof.
  unfold category_score.
  induction keywords as [|k rest IH]; intros score; simpl.
  - f_equal. lia.
  - rewrite score_step_points, IH. f_equal. lia.
Qed.

(** The loop over the categories, read on the scores: either nothing
    beats the score it starts from, or the winner is the first entry
    whose score is the largest. *)
Lemma best_of_first_max (entries : list (string * list string)) :
  forall bestCategory bestScore,
    let score := fun e : string * list string =>
                   category_score titleLower contentLower (snd e) in
    (best_of titleLower contentLower entries bestCategory bestScore = Some bestCategory
     /\ forall e, In e entries -> score e <= bestScore)
    \/ exists before category keywords later,
         entries = (before ++ (category, keywords) :: later)%list
         /\ best_of titleLower contentLower entries bestCategory bestScore = Some category
         /\ bestScore < score (category, keywords)
         /\ (forall e, In e before -> score e < score (category, keywords))
         /\ (forall e, In e later -> score e <= score (category, keywords)).
Proof.
  induction entries as [|[c kws] rest IH]; intros bc bs score.
  - left. split; [reflexivity | intros e []].
  - simpl best_of. rewrite score_keywords_sum.
    change (0 + category_score titleLower contentLower kws) with (score (c, kws)).
    destruct (bs <? score (c, kws)) eqn:E.
    + apply Nat.ltb_lt in E.
      destruct (IH c (score (c, kws)))
        as [[Hb Hle] | (bf & c' & k' & af & -> & Hb & Hlt & Hbf & Haf)].
      * right. exists [], c, kws, rest.
        split; [reflexivity|]. split; [exact Hb|]. split; [exact E|].
        split; [intros e [] | exact Hle].
      * right. exists ((c, kws) :: bf), c', k', af.
        split; [reflexivity|]. split; [exact Hb|].
        split; [exact (Nat.lt_trans _ _ _ E Hlt)|].
        split; [|exact Haf].
        intros e [<- | He]; [exact Hlt | now apply Hbf].
    + apply Nat.ltb_ge in E.
      destruct (IH bc bs)
        as [[Hb Hle] | (bf & c' & k' & af & -> & Hb & Hlt & Hbf & Haf)].
      * left. split; [exact Hb|].
        intros e [<- | He]; [exact E | now apply Hle].
      * right. exists ((c, kws) :: bf), c', k', af.
        split; [reflexivity|]. split; [exact Hb|]. split; [exact Hlt|].
        split; [|exact Haf].
        intros e [<- | He]; [exact (Nat.le_lt_trans _ _ _ E Hlt) | now apply Hbf].
Qed.

Lemma best_of_total (entries : list (string * list string)) :
  forall bestCategory bestScore,
    exists r, best_of titleLower contentLower entries bestCategory bestScore = Some r
              /\ (r = bestCategory \/ In r (map fst entries)).
Proof.
  induction entries as [|[c kws] rest IH]; intros bc bs; simpl.
  - exists bc. now split; [|left].
  - rewrite score_keywords_sum.
    destruct (bs <? _).
    + destruct (IH c (0 + category_score titleLower contentLower kws)) as (r & -> & [-> | H]);
        eexists; split; eauto.
    + destruct (IH bc bs) as (r & -> & [-> | H]); eexists; split; eauto.
Qed.

End Scoring.

Lemma category_score_zero (tl cl : string) (keywords : list string) :
  (forall k, In k keywords -> occurrences k tl = 0 /\ occurrences k cl = 0) ->
  category_score tl cl keywords = 0.
Proof.
  unfold category_score. induction keywords as [|k rest IH]; intros H; [reflexivity|].
  simpl. rewrite IH by (intros k' Hk'; apply H; now right).
  unfold points. destruct (H k (or_introl eq_refl)) as [-> ->]. reflexivity.
Qed.

(** A check that decides the absence of every keyword. *)
Lemma no_keyword_check (tl cl : string) :
  forallb (fun e : string * list string =>
             forallb (fun k => (occurrences k tl =? 0) && (occurrences k cl =? 0)) (snd e))
          CATEGORIES = true ->
  forall category keywords k,
    In (category, keywords) CATEGORIES -> In k keywords ->
    occurrences k tl = 0 /\ occurrences k cl = 0.
Proof.
  intros H category keywords k He Hk. rewrite forallb_forall in H.
  specialize (H _ He). simpl in H. rewrite forallb_forall in H.
  specialize (H _ Hk). apply andb_true_iff in H as [H1 H2].
  now apply Nat.eqb_eq in H1, H2.
Qed.

(** The three notes of the examples: several Business keywords with
    the title counted twice, Travel keywords, and no keyword at all. *)
Example categorize_business :
  categorize "Quarterly budget meeting with client"
             "Discuss revenue targets and project deadline" = Some "Business".
Proof. vm_compute. reflexivity. Qed.

Example categorize_travel :
  categorize "Trip to the mountains"
             "Booking flights and hotel for the hiking adventure" = Some "Travel".
Proof. vm_compute. reflexivity. Qed.

Example categorize_general :
  categorize "Random thoughts" "Just writing down whatever comes to mind" = Some "General".
Proof. vm_compute. reflexivity. Qed.

(** A match in the title outweighs a match in the content, and of two
    categories with the same score the one that comes first in the
    taxonomy is kept. *)
Example categorize_title_weight :
  categorize "flight" "exam" = Some "Travel"
  /\ categorize "exam" "flight" = Some "Educational"
  /\ categorize "flight exam" "" = Some "Educational".
Proof. vm_compute. repeat split. Qed.

(** C1: every keyword of a category adds twice the number of its
    occurrences in the lower-cased title plus the number of its
    occurrences in the lower-cased content to the score of the category;
    one occurrence in the title alone adds exactly 2, one in the content
    alone exactly 1, and the occurrences are not capped: three of them in
    a title add 6.  For a keyword of the taxonomy the number of
    occurrences is the number of positions at which the bounded keyword
    matches. *)
Theorem categorize_scoring (title content : string) :
  let titleLower := toLowerCase title in
  let contentLower := toLowerCase content in
  (forall score k,
      score_step titleLower contentLower score k
      = Some (score + (2 * occurrences k titleLower + 1 * occurrences k contentLower)))
  /\ (forall keywords,
         score_keywords titleLower contentLower keywords 0
         = Some (list_sum (map (fun k => 2 * occurrences k titleLower
                                         + 1 * occurrences k contentLower) keywords)))
  /\ (forall score k,
         occurrences k titleLower = 1 -> occurrences k contentLower = 0 ->
         score_step titleLower contentLower score k = Some (score + 2))
  /\ (forall score k,
         occurrences k titleLower = 0 -> occurrences k contentLower = 1 ->
         score_step titleLower contentLower score k = Some (score + 1))
  /\ (forall category keywords k,
         In (category, keywords) CATEGORIES -> In k keywords ->
         forall text, occurrences k text = count_positions (bounded k) None text)
  /\ score_step (toLowerCase "Test test TEST") (toLowerCase "none") 0 "test" = Some 6.
Proof.
  intros tl cl.
  split; [intros; apply score_step_points|].
  split; [intros; now rewrite score_keywords_sum|].
  split; [intros score k H1 H0; rewrite score_step_points; unfold points; now rewrite H1, H0|].
  split; [intros score k H0 H1; rewrite score_step_points; unfold points; now rewrite H1, H0|].
  split; [|reflexivity].
  intros category keywords k He Hk text. apply occurrences_positions.
  exact (taxonomy_overlap_free _ _ _ He Hk).
Qed.

Lemma categorize_scoring_witness :
  occurrences "exam" (toLowerCase "Exam on Monday") = 1
  /\ occurrences "exam" (toLowerCase "bring a pen") = 0
  /\ score_step (toLowerCase "Exam on Monday") (toLowerCase "bring a pen") 3 "exam" = Some (3 + 2).
Proof.
  split; [reflexivity|]. split; [reflexivity|].
  exact (proj1 (proj2 (proj2 (categorize_scoring "Exam on Monday" "bring a pen")))
           3 "exam" eq_refl eq_refl).
Defined.

(** C2: the regular expression built for a keyword is the keyword
    itself, character by character with the syntax characters escaped,
    between two word boundaries; a match is a copy of the keyword up to
    the case of letters; for a keyword of the taxonomy such a copy
    matches exactly when no word character stands directly before or
    after it; the count does not depend on the case of the text.
    "testing this" holds no match of "test", "test this" holds one, and
    the dot of "a.c" matches a dot only. *)
Theorem keyword_matching :
  (forall k, keyword_regex k = Some (bounded k))
  /\ (forall k prev s n,
         match_at (bounded k) prev s = Some n ->
         exists mid post, s = mid ++ post /\ eq_ci k mid = true /\ n = length k)
  /\ (forall category keywords k,
         In (category, keywords) CATEGORIES -> In k keywords ->
         forall prev mid post,
           eq_ci k mid = true ->
           match_at (bounded k) prev (mid ++ post)
           = if is_word prev || is_word (head post) then None else Some (length k))
  /\ (forall k s s', eq_ci s s' = true -> occurrences k s = occurrences k s')
  /\ option_map (fun r => match_count r "testing this") (keyword_regex "test") = Some 0
  /\ option_map (fun r => match_count r "test this") (keyword_regex "test") = Some 1
  /\ option_map (fun r => match_count r "TEST this") (keyword_regex "test") = Some 1
  /\ option_map (fun r => match_count r "abc a.c") (keyword_regex "a.c") = Some 1.
Proof.
  split; [exact keyword_regex_bounded|].
  split; [exact match_at_bounded_inv|].
  split.
  { intros category keywords k He Hk prev mid post Hm.
    apply match_at_bounded; trivial.
    exact (taxonomy_word_delimited _ _ _ He Hk). }
  split; [exact occurrences_ci|].
  repeat split.
Qed.

Lemma keyword_matching_witness :
  (exists keywords, In ("Educational", keywords) CATEGORIES /\ In "test" keywords)
  /\ eq_ci "test" "TEST" = true
  /\ match_at (bounded "test") (Some " "%char) ("TEST" ++ "ing this") = None
  /\ match_at (bounded "test") None ("TEST" ++ " this") = Some 4.
Proof.
  assert (He : exists keywords, In ("Educational", keywords) CATEGORIES /\ In "test" keywords).
  { eexists. split; [left; reflexivity|]. repeat (first [left; reflexivity | right]). }
  split; [exact He|]. destruct He as (keywords & He & Hk).
  split; [reflexivity|]. split.
  - exact (proj1 (proj2 (proj2 keyword_matching)) _ _ _ He Hk
             (Some " "%char) "TEST" "ing this" eq_refl).
  - exact (proj1 (proj2 (proj2 keyword_matching)) _ _ _ He Hk
             None "TEST" " this" eq_refl).
Defined.

(** C3: when some category scores, [categorize] returns the first
    category of the taxonomy whose score is the largest: every category
    before it scores strictly less, none after it scores more; when no
    category scores, the answer is General. *)
Theorem categorize_first_maximum (title content : string) :
  let score := fun e : string * list string =>
                 category_score (toLowerCase title) (toLowerCase content) (snd e) in
  (categorize title content = Some "General"
   /\ forall e, In e CATEGORIES -> score e = 0)
  \/ exists before category keywords later,
       CATEGORIES = (before ++ (category, keywords) :: later)%list
       /\ categorize title content = Some category
       /\ 0 < score (category, keywords)
       /\ (forall e, In e before -> score e < score (category, keywords))
       /\ (forall e, In e later -> score e <= score (category, keywords)).
Proof.
  intros score. unfold categorize, categorize_in.
  destruct (best_of_first_max (toLowerCase title) (toLowerCase content) CATEGORIES "General" 0)
    as [[Hb Hle] | H].
  - left. split; trivial. intros e He. specialize (Hle e He). unfold score. simpl in Hle. lia.
  - right. exact H.
Qed.

(** C4: when no keyword of any category occurs in the lower-cased title
    or content, [categorize] returns General. *)
Theorem categorize_no_match (title content : string) :
  (forall category keywords k,
      In (category, keywords) CATEGORIES -> In k keywords ->
      occurrences k (toLowerCase title) = 0 /\ occurrences k (toLowerCase content) = 0) ->
  categorize title content = Some "General".
Proof.
  intros H. unfold categorize, categorize_in.
  destruct (best_of_first_max (toLowerCase title) (toLowerCase content) CATEGORIES "General" 0)
    as [[Hb _] | (bf & c & kws & af & Heq & _ & Hlt & _)]; trivial.
  exfalso. simpl in Hlt.
  rewrite (category_score_zero _ _ kws) in Hlt; [lia|].
  intros k Hk. apply (H c kws); trivial. rewrite Heq. apply in_elt.
Qed.

Lemma categorize_no_match_witness :
  categorize "Random thoughts" "Just writing down whatever comes to mind" = Some "General".
Proof.
  apply categorize_no_match. apply no_keyword_check. vm_compute. reflexivity.
Defined.

End EngineFacts.

(** ** The note store *)

Module StoreFacts.
Import JSString RegExp Engine Store Notions CharFacts RegExpFacts EngineFacts.

(** *** Ordering *)

Lemma insert_desc_perm (n : Note) (rows : list Note) :
  Permutation (insert_desc n rows) (n :: rows).
Proof.
  induction rows as [|m rest IH]; simpl; [reflexivity|].
  destruct (createdAt n <? createdAt m)%Z; [|reflexivity].
  rewrite IH. apply perm_swap.
Qed.

Lemma order_by_perm (rows : list Note) :
  Permutation (order_by_createdAt_desc rows) rows.
Proof.
  induction rows as [|n rest IH]; simpl; [reflexivity|].
  rewrite insert_desc_perm. now constructor.
Qed.

Lemma order_by_In (n : Note) (rows : list Note) :
  In n (order_by_createdAt_desc rows) <-> In n rows.
Proof.
  split; apply Permutation_in; [|symmetry]; apply order_by_perm.
Qed.

Lemma insert_desc_sorted (n : Note) (rows : list Note) :
  Sorted newer_first rows -> Sorted newer_first (insert_desc n rows).
Proof.
  induction rows as [|m rest IH]; intros H; simpl.
  - repeat constructor.
  - destruct (createdAt n <? createdAt m)%Z eqn:E.
    + apply Z.ltb_lt in E. inversion H as [|? ? Hs Hh]; subst.
      constructor; [now apply IH|].
      destruct rest as [|m' rest']; simpl.
      * constructor. unfold newer_first. lia.
      * destruct (createdAt n <? createdAt m')%Z.
        -- constructor. now inversion Hh.
        -- constructor. unfold newer_first. lia.
    + apply Z.ltb_ge in E. constructor; [exact H|]. now constructor.
Qed.

Lemma order_by_sorted (rows : list Note) :
  Sorted newer_first (order_by_createdAt_desc rows).
Proof.
  induction rows as [|n rest IH]; simpl; [constructor|].
  now apply insert_desc_sorted.
Qed.

(** *** Keys *)

Lemma queryOne_none (i : string) (db : table) :
  queryOne i db = None <-> ~ present i db.
Proof.
  unfold queryOne, present. induction db as [|n rest IH]; simpl.
  - tauto.
  - destruct (String.eqb_spec (id n) i) as [E|E].
    + split; [discriminate | intros H; exfalso; apply H; now left].
    + rewrite IH. tauto.
Qed.

Lemma queryOne_some (i : string) (db : table) (n : Note) :
  queryOne i db = Some n -> In n db /\ id n = i.
Proof.
  unfold queryOne. intros H. apply find_some in H as [Hin He].
  split; trivial. now apply String.eqb_eq.
Qed.

Lemma queryOne_present (i : string) (db : table) :
  present i db -> exists n, queryOne i db = Some n.
Proof.
  intros H. destruct (queryOne i db) as [n|] eqn:E; [now exists n|].
  now apply queryOne_none in E.
Qed.

Lemma delete_rows_absent (i : string) (db : table) : ~ present i (delete_rows i db).
Proof.
  unfold present, delete_rows. rewrite in_map_iff. intros (n & He & Hin).
  apply filter_In in Hin as [_ Hn]. apply negb_true_iff in Hn.
  apply String.eqb_neq in Hn. contradiction.
Qed.

Lemma update_rows_ids (i t c cat : string) (now : Z) (db : table) :
  map id (update_rows i t c cat now db) = map id db.
Proof.
  unfold update_rows. rewrite map_map. apply map_ext.
  intros n. now destruct (String.eqb (id n) i).
Qed.

(** *** What a request does to the table *)

Lemma categorize_known (t c : string) :
  exists cat, categorize t c = Some cat /\ In cat known_labels.
Proof.
  unfold categorize, categorize_in.
  destruct (best_of_total (toLowerCase t) (toLowerCase c) CATEGORIES "General" 0)
    as (r & Hr & Hin).
  exists r. split; [exact Hr|].
  clear Hr. destruct Hin as [-> | Hin]; [simpl; tauto|].
  change (map fst CATEGORIES)
    with ["Educational"; "Business"; "Personal"; "Technology"; "Finance"; "Health"; "Travel"]
    in Hin.
  simpl in *. tauto.
Qed.

Lemma resolve_category_known (body : Body) (t c cat : string) :
  choice_known body ->
  resolve_category (manualCategory body) t c = Some cat ->
  In cat known_labels.
Proof.
  unfold choice_known, resolve_category.
  destruct (categorize_known t c) as (cat' & Hc & Hk). rewrite Hc.
  destruct (manualCategory body) as [m|].
  - intros Hm. destruct (negb (truthy m) || String.eqb m "Auto") eqn:E.
    + now intros [= <-].
    + intros [= <-]. apply orb_false_iff in E as [E1 E2].
      destruct Hm as [-> | [-> | Hm]]; [discriminate E1 | discriminate E2 | exact Hm].
  - now intros _ [= <-].
Qed.

Lemma post_note_cases (new_id : string) (now : Z) (body : Body) (db : table) :
  (fst (post_note new_id now body db) = db
   /\ forall n, snd (post_note new_id now body db) <> Ok n)
  \/ exists cat,
       resolve_category (manualCategory body)
         (trim (text_of (body_title body))) (trim (text_of (body_content body))) = Some cat
       /\ missing (body_title body) = false
       /\ missing (body_content body) = false
       /\ queryOne new_id db = None
       /\ post_note new_id now body db
          = ((db ++ [mkNote new_id (trim (text_of (body_title body)))
                       (trim (text_of (body_content body))) cat now now])%list,
             Ok (mkNote new_id (trim (text_of (body_title body)))
                   (trim (text_of (body_content body))) cat now now)).
Proof.
  unfold post_note, insert_row. simpl.
  destruct (missing (body_title body)); [left; split; [reflexivity | discriminate]|].
  destruct (missing (body_content body)); [left; split; [reflexivity | discriminate]|].
  destruct (resolve_category _ _ _) as [cat|]; [|left; split; [reflexivity | discriminate]].
  destruct (queryOne new_id db) eqn:E; [left; split; [reflexivity | discriminate]|].
  right. exists cat. repeat split.
Qed.

Lemma put_note_cases (i : string) (now : Z) (body : Body) (db : table) :
  (fst (put_note i now body db) = db
   /\ forall n, snd (put_note i now body db) <> Ok n)
  \/ exists existing cat,
       queryOne i db = Some existing
       /\ resolve_category (manualCategory body)
            (trim (text_of (body_title body))) (trim (text_of (body_content body))) = Some cat
       /\ missing (body_title body) = false
       /\ missing (body_content body) = false
       /\ put_note i now body db
          = (update_rows i (trim (text_of (body_title body)))
               (trim (text_of (body_content body))) cat now db,
             Ok (mkNote (id existing) (trim (text_of (body_title body)))
                   (trim (text_of (body_content body))) cat (createdAt existing) now)).
Proof.
  unfold put_note.
  destruct (queryOne i db) as [existing|]; [|left; split; [reflexivity | discriminate]].
  destruct (missing (body_title body)); [left; split; [reflexivity | discriminate]|].
  destruct (missing (body_content body)); [left; split; [reflexivity | discriminate]|].
  destruct (resolve_category _ _ _) as [cat|]; [|left; split; [reflexivity | discriminate]].
  right. exists existing, cat. repeat split.
Qed.

Lemma delete_note_cases (i : string) (db : table) :
  (queryOne i db = None /\ delete_note i db = (db, NotFoundError))
  \/ (present i db /\ delete_note i db = (delete_rows i db, Ok tt)).
Proof.
  unfold delete_note. destruct (queryOne i db) as [n|] eqn:E; [right | left; now split].
  split; [|reflexivity]. apply queryOne_some in E as [Hin <-].
  unfold present. now apply in_map.
Qed.

(** A request that does not create the id cannot bring it back. *)
Lemma step_absent (i : string) (db : table) (r : request) :
  not_creating i r -> ~ present i db -> ~ present i (step db r).
Proof.
  intros Hr Hdb. destruct r as [new_id now body | j now body | j | | q]; simpl; trivial.
  - destruct (post_note_cases new_id now body db) as [[-> _] | (cat & _ & _ & _ & _ & ->)]; trivial.
    simpl. unfold present in *. rewrite map_app, in_app_iff. simpl in *. intuition.
  - destruct (put_note_cases j now body db) as [[-> _] | (e & cat & _ & _ & _ & _ & ->)]; trivial.
    simpl. unfold present in *. now rewrite update_rows_ids.
  - destruct (delete_note_cases j db) as [[_ ->] | [_ ->]]; trivial.
    simpl. unfold present, delete_rows in *. rewrite in_map_iff in *.
    intros (n & He & Hin). apply Hdb. exists n. split; trivial.
    now apply filter_In in Hin.
Qed.

Lemma run_absent (i : string) (rs : list request) :
  forall db, Forall (not_creating i) rs -> ~ present i db -> ~ present i (run db rs).
Proof.
  unfold run. induction rs as [|r rs IH]; intros db Hrs Hdb; simpl; trivial.
  inversion Hrs; subst. apply IH; trivial. now apply step_absent.
Qed.

Lemma missing_empty (value : option string) :
  missing value = true <-> empty_after_trim value.
Proof.
  unfold missing, empty_after_trim. destruct value as [v|]; simpl; [|tauto].
  destruct v as [|c v]; simpl; [tauto|].
  destruct (trim (String c v)); simpl; split; trivial; discriminate.
Qed.

(** *** Search *)

Lemma like_percent (p s : string) :
  like (String "%" p) s
  = like p s || match s with EmptyString => false | String _ s' => like (String "%" p) s' end.
Proof. destruct s; reflexivity. Qed.

Lemma like_any (s : string) : like "%" s = true.
Proof. induction s as [|c s IH]; [reflexivity|]. rewrite like_percent. now rewrite IH, orb_true_r. Qed.





Lemma listAll_sorted (db : table) :
  Sorted newer_first (listAll db) /\ Permutation (listAll db) db.
Proof. split; [apply order_by_sorted | apply order_by_perm]. Qed.

Lemma search_sorted (keyword : string) (db : table) :
  Sorted newer_first (search keyword db).
Proof. apply order_by_sorted. Qed.

Lemma filter_all {A : Type} (f : A -> bool) (l : list A) :
  (forall x, f x = true) -> filter f l = l.
Proof. intros H. induction l as [|x l IH]; simpl; [reflexivity|]. now rewrite H, IH. Qed.


(** C6: the keyword goes into the [LIKE] pattern as it is, so an
    underscore in it stands for any character: the search for "a_c"
    returns a note whose title is "abc" although neither its title nor
    its content contains "a_c", and the search for "%" returns a note
    that holds no percent sign. *)
Theorem search_wildcards_not_literal :
  let note := mkNote "n1" "abc" "xyz" "General" 1 1 in
  search "a_c" [note] = [note]
  /\ contains_ci "a_c" (title note) = false
  /\ contains_ci "a_c" (content note) = false
  /\ search "%" [note] = [note]
  /\ contains_ci "%" (title note) = false
  /\ contains_ci "%" (content note) = false.
Proof. repeat split. Qed.

(** *** Category labels *)

(** C5, as the code has it: the category that the engine assigns is one
    of the eight labels, and a request whose category choice is absent,
    empty, "Auto" or one of the eight labels keeps every stored category
    among the eight labels; so does a delete and every read. *)
Theorem known_labels_preserved (db : table) (r : request) :
  all_known db -> request_known r ->
  all_known (step db r)
  /\ forall t c, exists cat, categorize t c = Some cat /\ In cat known_labels.
Proof.
  intros Hdb Hr. split; [|exact categorize_known].
  unfold all_known in *.
  destruct r as [new_id now body | j now body | j | | q]; simpl; trivial.
  - destruct (post_note_cases new_id now body db) as [[-> _] | (cat & Hc & _ & _ & _ & ->)]; trivial.
    simpl. apply Forall_app. split; trivial. constructor; [|constructor].
    simpl. exact (resolve_category_known _ _ _ _ Hr Hc).
  - destruct (put_note_cases j now body db) as [[-> _] | (e & cat & _ & Hc & _ & _ & ->)]; trivial.
    simpl. unfold update_rows. rewrite Forall_map. rewrite Forall_forall in *.
    intros n Hn. destruct (String.eqb (id n) j); [|now apply Hdb].
    simpl. exact (resolve_category_known _ _ _ _ Hr Hc).
  - destruct (delete_note_cases j db) as [[_ ->] | [_ ->]]; trivial.
    simpl. unfold delete_rows. rewrite Forall_forall in *.
    intros n Hn. apply filter_In in Hn as [Hn _]. now apply Hdb.
Qed.

Lemma known_labels_preserved_witness :
  let db := [mkNote "n1" "Notes" "exam on monday" "Educational" 1 1] in
  let r := Update "n1" 2 (mkBody (Some "Flight") (Some "hotel booking") (Some "Travel")) in
  all_known db /\ request_known r
  /\ step db r = [mkNote "n1" "Flight" "hotel booking" "Travel" 1 2]
  /\ all_known (step db r).
Proof.
  assert (Hdb : all_known [mkNote "n1" "Notes" "exam on monday" "Educational" 1 1]).
  { constructor; [|constructor]. simpl. auto. }
  assert (Hr : request_known
                 (Update "n1" 2 (mkBody (Some "Flight") (Some "hotel booking") (Some "Travel")))).
  { simpl. unfold choice_known. simpl. auto 12. }
  split; [exact Hdb|]. split; [exact Hr|]. split; [reflexivity|].
  exact (proj1 (known_labels_preserved _ _ Hdb Hr)).
Defined.

(** An explicit category is stored as it comes: a create with the
    category "Foo" leaves a row whose category is none of the eight
    labels. *)
Lemma explicit_category_stored_verbatim :
  let db := step [] (Create "n1" 1 (mkBody (Some "title") (Some "text") (Some "Foo"))) in
  all_known [] /\ db = [mkNote "n1" "title" "text" "Foo" 1 1] /\ ~ all_known db.
Proof.
  split; [constructor|]. split; [reflexivity|].
  intros H. inversion H as [|? ? Hc _]; subst. simpl in Hc.
  repeat (destruct Hc as [Hc | Hc]; [discriminate Hc|]). exact Hc.
Qed.

(** *** Time stamps *)

Lemma queryOne_app_new (n : Note) (db : table) :
  queryOne (id n) db = None -> queryOne (id n) (db ++ [n])%list = Some n.
Proof.
  unfold queryOne. induction db as [|m rest IH]; simpl.
  - now rewrite String.eqb_refl.
  - destruct (String.eqb (id m) (id n)); [discriminate | exact IH].
Qed.

Lemma queryOne_update_rows (i t c cat : string) (now : Z) (db : table) (existing : Note) :
  queryOne i db = Some existing ->
  queryOne i (update_rows i t c cat now db)
  = Some (mkNote (id existing) t c cat (createdAt existing) now).
Proof.
  unfold queryOne, update_rows. induction db as [|m rest IH]; simpl; [discriminate|].
  destruct (String.eqb (id m) i) eqn:E; simpl; rewrite E.
  - now intros [= <-].
  - exact IH.
Qed.

(** C7: the note that create returns has [createdAt] equal to
    [updatedAt], both the time of the request, and is the row stored
    under its id; a successful update returns and stores the existing
    row with its [id] and [createdAt] as they were, [updatedAt] set to
    the time of the update, and every row with another id as it was; an
    update that follows the create keeps the [id] and [createdAt] of the
    created note. *)
Theorem create_update_timestamps :
  (forall db new_id now body db1 n,
      post_note new_id now body db = (db1, Ok n) ->
      createdAt n = updatedAt n /\ createdAt n = now /\ id n = new_id
      /\ db1 = (db ++ [n])%list /\ queryOne new_id db1 = Some n)
  /\ (forall db i now body db' n',
         put_note i now body db = (db', Ok n') ->
         exists existing,
           queryOne i db = Some existing
           /\ id n' = id existing /\ createdAt n' = createdAt existing
           /\ updatedAt n' = now
           /\ queryOne i db' = Some n'
           /\ db' = map (fun m => if String.eqb (id m) i
                                  then mkNote (id m) (title n') (content n') (category n')
                                         (createdAt m) now
                                  else m) db)
  /\ (forall db new_id now body db1 n now' body' db2 n',
         post_note new_id now body db = (db1, Ok n) ->
         put_note (id n) now' body' db1 = (db2, Ok n') ->
         id n' = id n /\ createdAt n' = createdAt n /\ updatedAt n' = now').
Proof.
  assert (Hpost : forall db new_id now body db1 n,
             post_note new_id now body db = (db1, Ok n) ->
             createdAt n = updatedAt n /\ createdAt n = now /\ id n = new_id
             /\ db1 = (db ++ [n])%list /\ queryOne new_id db1 = Some n).
  { intros db new_id now body db1 n H.
    destruct (post_note_cases new_id now body db) as [[_ Hno] | (cat & _ & _ & _ & Hq & He)].
    - exfalso. apply (Hno n). now rewrite H.
    - rewrite He in H. injection H as <- <-. repeat split.
      now apply (queryOne_app_new (mkNote new_id _ _ cat now now)). }
  assert (Hput : forall db i now body db' n',
             put_note i now body db = (db', Ok n') ->
             exists existing,
               queryOne i db = Some existing
               /\ id n' = id existing /\ createdAt n' = createdAt existing
               /\ updatedAt n' = now
               /\ queryOne i db' = Some n'
               /\ db' = map (fun m => if String.eqb (id m) i
                                      then mkNote (id m) (title n') (content n') (category n')
                                             (createdAt m) now
                                      else m) db).
  { intros db i now body db' n' H.
    destruct (put_note_cases i now body db) as [[_ Hno] | (e & cat & Hq & _ & _ & _ & He)].
    - exfalso. apply (Hno n'). now rewrite H.
    - rewrite He in H. injection H as <- <-. exists e. repeat split; trivial.
      now apply queryOne_update_rows. }
  split; [exact Hpost|]. split; [exact Hput|].
  intros db new_id now body db1 n now' body' db2 n' H1 H2.
  destruct (Hpost _ _ _ _ _ _ H1) as (_ & _ & Hid & _ & Hq).
  destruct (Hput _ _ _ _ _ _ H2) as (e & Hq' & Hi & Hc & Hu & _).
  rewrite Hid, Hq in Hq'. injection Hq' as <-. now repeat split.
Qed.

Lemma create_update_timestamps_witness :
  let body := mkBody (Some " Trip ") (Some "hotel booking") None in
  let body' := mkBody (Some "Exam") (Some "study notes") (Some "Auto") in
  let n := mkNote "n1" "Trip" "hotel booking" "Travel" 5 5 in
  let n' := mkNote "n1" "Exam" "study notes" "Educational" 5 9 in
  post_note "n1" 5 body [] = ([n], Ok n)
  /\ put_note "n1" 9 body' [n] = ([n'], Ok n')
  /\ id n' = id n /\ createdAt n' = createdAt n /\ updatedAt n' = 9%Z.
Proof.
  split; [vm_compute; reflexivity|]. split; [vm_compute; reflexivity|].
  apply (proj2 (proj2 create_update_timestamps)
           [] "n1" 5%Z (mkBody (Some " Trip ") (Some "hotel booking") None)
           [mkNote "n1" "Trip" "hotel booking" "Travel" 5 5]
           (mkNote "n1" "Trip" "hotel booking" "Travel" 5 5)
           9%Z (mkBody (Some "Exam") (Some "study notes") (Some "Auto"))
           [mkNote "n1" "Exam" "study notes" "Educational" 5 9]);
    vm_compute; reflexivity.
Defined.

(** *** Unknown ids and deleted notes *)

Lemma put_note_unknown (db : table) (i : string) (now : Z) (body : Body) :
  ~ present i db -> put_note i now body db = (db, NotFoundError).
Proof. intros H. apply queryOne_none in H. unfold put_note. now rewrite H. Qed.

Lemma delete_note_unknown (db : table) (i : string) :
  ~ present i db -> delete_note i db = (db, NotFoundError).
Proof. intros H. apply queryOne_none in H. unfold delete_note. now rewrite H. Qed.

Lemma listAll_ids (i : string) (db : table) :
  ~ present i db -> forall n, In n (listAll db) -> id n <> i.
Proof.
  intros H n Hn He. apply H. unfold listAll, get_notes in Hn. simpl in Hn.
  apply (proj1 (order_by_In _ _)) in Hn. unfold present. rewrite <- He. now apply in_map.
Qed.

Lemma search_ids (i : string) (q : option string) (db : table) :
  ~ present i db -> forall n, In n (payload (get_notes_search q db)) -> id n <> i.
Proof.
  intros H n Hn He. apply H. unfold get_notes_search in Hn. simpl in Hn.
  apply (proj1 (order_by_In _ _)) in Hn. apply filter_In in Hn as [Hn _].
  unfold present. rewrite <- He. now apply in_map.
Qed.

(** C8: update and delete of an id that is not in the table answer
    NotFound and leave the table as it is; after a successful delete of
    an id, and after any further requests that do not create that id
    anew, no listing and no search returns a note with the id, and
    deleting it again answers NotFound. *)
Theorem unknown_id_not_found :
  (forall db i now body,
      ~ present i db -> put_note i now body db = (db, NotFoundError))
  /\ (forall db i, ~ present i db -> delete_note i db = (db, NotFoundError))
  /\ (forall db i db',
         delete_note i db = (db', Ok tt) ->
         forall rs, Forall (not_creating i) rs ->
           (forall n, In n (listAll (run db' rs)) -> id n <> i)
           /\ (forall q n, In n (payload (get_notes_search q (run db' rs))) -> id n <> i)
           /\ delete_note i (run db' rs) = (run db' rs, NotFoundError)).
Proof.
  split; [exact put_note_unknown|]. split; [exact delete_note_unknown|].
  intros db i db' H rs Hrs.
  assert (Habs : ~ present i (run db' rs)).
  { apply run_absent; trivial.
    destruct (delete_note_cases i db) as [[_ He] | [_ He]]; rewrite He in H.
    - discriminate H.
    - injection H as <-. apply delete_rows_absent. }
  split; [now apply listAll_ids|]. split; [intros q; now apply search_ids|].
  now apply delete_note_unknown.
Qed.

Lemma unknown_id_not_found_witness :
  let n1 := mkNote "n1" "Trip" "hotel booking" "Travel" 5 5 in
  let n2 := mkNote "n2" "Exam" "study notes" "Educational" 6 6 in
  delete_note "n1" [n1; n2] = ([n2], Ok tt)
  /\ (forall n, In n (listAll (run [n2] [Update "n1" 7 (mkBody (Some "a") (Some "b") None)]))
                -> id n <> "n1")
  /\ delete_note "n1" (run [n2] [Update "n1" 7 (mkBody (Some "a") (Some "b") None)])
     = (run [n2] [Update "n1" 7 (mkBody (Some "a") (Some "b") None)], NotFoundError).
Proof.
  split; [reflexivity|].
  destruct (proj2 (proj2 unknown_id_not_found)
              [mkNote "n1" "Trip" "hotel booking" "Travel" 5 5;
               mkNote "n2" "Exam" "study notes" "Educational" 6 6]
              "n1" [mkNote "n2" "Exam" "study notes" "Educational" 6 6] eq_refl
              [Update "n1" 7%Z (mkBody (Some "a") (Some "b") None)])
    as (Hl & _ & Hd).
  - constructor; [exact I | constructor].
  - split; [exact Hl | exact Hd].
Defined.

(** *** Validation *)

(** C9, as the code has it: create answers a validation failure whenever
    the title or the content is empty after trimming, update does so
    whenever in addition the id is in the table, and in both cases the
    table stays as it is. *)
Theorem empty_field_rejected (db : table) (body : Body) :
  empty_after_trim (body_title body) \/ empty_after_trim (body_content body) ->
  (forall new_id now,
      exists reason, post_note new_id now body db = (db, ValidationError reason))
  /\ (forall i now,
         present i db ->
         exists reason, put_note i now body db = (db, ValidationError reason)).
Proof.
  intros H.
  assert (Hm : missing (body_title body) = true
               \/ (missing (body_title body) = false /\ missing (body_content body) = true)).
  { destruct (missing (body_title body)) eqn:Et; [now left|]. right. split; trivial.
    destruct H as [H | H]; apply missing_empty in H; congruence. }
  split.
  - intros new_id now. unfold post_note.
    destruct Hm as [-> | [-> ->]]; eexists; reflexivity.
  - intros i now Hp. unfold put_note.
    destruct (queryOne_present _ _ Hp) as (e & ->).
    destruct Hm as [-> | [-> ->]]; eexists; reflexivity.
Qed.

Lemma empty_field_rejected_witness :
  let db := [mkNote "n1" "Trip" "hotel booking" "Travel" 5 5] in
  let body := mkBody (Some "   ") (Some "text") None in
  empty_after_trim (body_title body)
  /\ present "n1" db
  /\ (exists reason, post_note "n2" 6 body db = (db, ValidationError reason))
  /\ (exists reason, put_note "n1" 6 body db = (db, ValidationError reason)).
Proof.
  split; [reflexivity|]. split; [left; reflexivity|].
  destruct (empty_field_rejected [mkNote "n1" "Trip" "hotel booking" "Travel" 5 5]
              (mkBody (Some "   ") (Some "text") None) (or_introl eq_refl))
    as [Hpost Hput].
  split; [exact (Hpost "n2" 6%Z) | exact (Hput "n1" 6%Z (or_introl eq_refl))].
Defined.

(** An update of an unknown id with an empty title is answered NotFound,
    not a validation failure. *)
Lemma update_unknown_id_not_validated :
  let body := mkBody (Some "   ") (Some "text") None in
  empty_after_trim (body_title body)
  /\ put_note "n1" 6 body [] = ([], NotFoundError)
  /\ forall reason, put_note "n1" 6 body [] <> ([], ValidationError reason).
Proof. split; [reflexivity|]. split; [reflexivity | discriminate]. Qed.

(** C10: an update of an id that is not in the table answers NotFound
    whatever the body holds, also when the title or the content is empty
    after trimming; the answer is then not a validation failure. *)
Theorem not_found_before_validation (db : table) (i : string) (now : Z) (body : Body) :
  ~ present i db ->
  put_note i now body db = (db, NotFoundError)
  /\ ((empty_after_trim (body_title body) \/ empty_after_trim (body_content body)) ->
      forall reason, snd (put_note i now body db) <> ValidationError reason).
Proof.
  intros H. rewrite (put_note_unknown _ _ _ _ H). split; [reflexivity|].
  intros _ reason. discriminate.
Qed.

Lemma not_found_before_validation_witness :
  let db := [mkNote "n1" "Trip" "hotel booking" "Travel" 5 5] in
  let body := mkBody (Some "") None None in
  ~ present "n9" db
  /\ empty_after_trim (body_title body)
  /\ put_note "n9" 6 body db = (db, NotFoundError).
Proof.
  assert (H : ~ present "n9" [mkNote "n1" "Trip" "hotel booking" "Travel" 5 5]).
  { unfold present. simpl. intros [E | []]. discriminate E. }
  split; [exact H|]. split; [reflexivity|].
  exact (proj1 (not_found_before_validation _ "n9" 6%Z (mkBody (Some "") None None) H)).
Defined.

End StoreFacts.

(** ** Trimming *)

Module TrimFacts.
Import JSString Store Notions MoreNotions CharFacts.

Lemma trimEnd_idem (s : string) : trimEnd (trimEnd s) = trimEnd s.
Proof.
  induction s as [|c s IH]; [reflexivity|].
  simpl. destruct (trimEnd s) as [|d r] eqn:E.
  - destruct (is_space c) eqn:Ec; [reflexivity|]. simpl. now rewrite Ec.
  - change (trimEnd (String c (String d r))) with
      (match trimEnd (String d r) with
       | EmptyString => if is_space c then EmptyString else String c EmptyString
       | String e r' => String c (String e r')
       end).
    now rewrite IH.
Qed.

Lemma trimStart_clean (s : string) : starts_clean (trimStart s).
Proof.
  induction s as [|c s IH]; simpl; [exact I|].
  destruct (is_space c) eqn:E; [exact IH | exact E].
Qed.

Lemma trimStart_of_clean (s : string) : starts_clean s -> trimStart s = s.
Proof. destruct s as [|c s]; simpl; [reflexivity|]. now intros ->. Qed.

Lemma trimEnd_clean (s : string) : starts_clean s -> starts_clean (trimEnd s).
Proof.
  destruct s as [|c s]; simpl; [trivial|]. intros Hc.
  destruct (trimEnd s); [rewrite Hc|]; exact Hc.
Qed.

Lemma trim_idem (s : string) : trim (trim s) = trim s.
Proof.
  unfold trim.
  rewrite (trimStart_of_clean (trimEnd (trimStart s))).
  - apply trimEnd_idem.
  - apply trimEnd_clean, trimStart_clean.
Qed.

Lemma truthy_nonempty (s : string) : truthy s = true <-> s <> "".
Proof. destruct s; simpl; split; congruence. Qed.

Lemma missing_false (value : option string) :
  missing value = false -> trimmed (trim (text_of value)).
Proof.
  unfold missing, trimmed. destruct value as [v|]; [|discriminate]. simpl.
  intros H. apply orb_false_iff in H as [_ H]. apply negb_false_iff in H.
  split; [now apply truthy_nonempty | apply trim_idem].
Qed.


End TrimFacts.

(** ** What the requests keep *)

Module StoreInvariants.
Import JSString RegExp Engine Store Notions MoreNotions CharFacts StoreFacts TrimFacts.

(** A request leaves the table as it is, adds one row, rewrites the rows
    of one id, or removes the rows of one id. *)
Lemma step_cases (db : table) (r : request) :
  step db r = db
  \/ (exists new_id now body cat,
        r = Create new_id now body
        /\ resolve_category (manualCategory body)
             (trim (text_of (body_title body))) (trim (text_of (body_content body))) = Some cat
        /\ missing (body_title body) = false /\ missing (body_content body) = false
        /\ queryOne new_id db = None
        /\ step db r = (db ++ [mkNote new_id (trim (text_of (body_title body)))
                                 (trim (text_of (body_content body))) cat now now])%list)
  \/ (exists i now body cat existing,
        r = Update i now body
        /\ resolve_category (manualCategory body)
             (trim (text_of (body_title body))) (trim (text_of (body_content body))) = Some cat
        /\ missing (body_title body) = false /\ missing (body_content body) = false
        /\ queryOne i db = Some existing
        /\ step db r = update_rows i (trim (text_of (body_title body)))
                         (trim (text_of (body_content body))) cat now db)
  \/ (exists i, r = Delete i /\ present i db /\ step db r = delete_rows i db).
Proof.
  destruct r as [new_id now body | i now body | i | | q]; simpl; auto.
  - destruct (post_note_cases new_id now body db)
      as [[-> _] | (cat & Hc & Ht & Hb & Hq & ->)]; [now left|].
    right. left. exists new_id, now, body, cat. repeat split; trivial.
  - destruct (put_note_cases i now body db)
      as [[-> _] | (e & cat & Hq & Hc & Ht & Hb & ->)]; [now left|].
    right. right. left. exists i, now, body, cat, e. repeat split; trivial.
  - destruct (delete_note_cases i db) as [[_ ->] | [Hp ->]]; [now left|].
    right. right. right. exists i. repeat split; trivial.
Qed.

Lemma NoDup_map_filter {A B : Type} (f : A -> B) (g : A -> bool) (l : list A) :
  NoDup (map f l) -> NoDup (map f (filter g l)).
Proof.
  induction l as [|x l IH]; simpl; intros H; [constructor|].
  inversion H as [|? ? Hx Hl]; subst.
  destruct (g x); simpl; [|now apply IH].
  constructor; [|now apply IH].
  intros Hin. apply Hx. apply in_map_iff in Hin as (y & Hy & Hin).
  apply filter_In in Hin as [Hin _]. apply in_map_iff. now exists y.
Qed.

Lemma step_unique_ids (db : table) (r : request) :
  unique_ids db -> unique_ids (step db r).
Proof.
  unfold unique_ids. intros H.
  destruct (step_cases db r)
    as [-> | [(new_id & now & body & cat & _ & _ & _ & _ & Hq & ->)
           | [(i & now & body & cat & e & _ & _ & _ & _ & _ & ->)
             | (i & _ & _ & ->)]]]; trivial.
  - rewrite map_app. simpl. apply queryOne_none in Hq.
    apply NoDup_app_remove_l with (l := []). simpl.
    apply Permutation_NoDup with (l := new_id :: map id db).
    + apply Permutation_cons_append.
    + now constructor.
  - now rewrite update_rows_ids.
  - now apply NoDup_map_filter.
Qed.

Lemma step_texts_trimmed (db : table) (r : request) :
  texts_trimmed db -> texts_trimmed (step db r).
Proof.
  unfold texts_trimmed. intros H.
  destruct (step_cases db r)
    as [-> | [(new_id & now & body & cat & _ & _ & Ht & Hb & _ & ->)
           | [(i & now & body & cat & e & _ & _ & Ht & Hb & _ & ->)
             | (i & _ & _ & ->)]]]; trivial.
  - apply Forall_app. split; trivial. constructor; [|constructor].
    simpl. split; now apply missing_false.
  - unfold update_rows. rewrite Forall_map. rewrite Forall_forall in *.
    intros n Hn. destruct (String.eqb (id n) i); [|now apply H].
    simpl. split; now apply missing_false.
  - unfold delete_rows. rewrite Forall_forall in *.
    intros n Hn. apply filter_In in Hn as [Hn _]. now apply H.
Qed.

Lemma step_times_ordered (db : table) (r : request) :
  times_ordered db -> not_before db r -> times_ordered (step db r).
Proof.
  unfold times_ordered, not_before. intros H Hr.
  destruct (step_cases db r)
    as [-> | [(new_id & now & body & cat & -> & _ & _ & _ & _ & ->)
           | [(i & now & body & cat & e & -> & _ & _ & _ & _ & ->)
             | (i & _ & _ & ->)]]]; trivial.
  - apply Forall_app. split; trivial. constructor; [|constructor]. simpl. lia.
  - simpl in Hr. unfold update_rows. rewrite Forall_map. rewrite Forall_forall in *.
    intros n Hn. destruct (String.eqb (id n) i); [|now apply H].
    simpl. now apply Hr.
  - unfold delete_rows. rewrite Forall_forall in *.
    intros n Hn. apply filter_In in Hn as [Hn _]. now apply H.
Qed.

End StoreInvariants.

(** ** The store as its users see it *)

Module StoreExtras.
Import JSString RegExp Engine Store Notions MoreNotions CharFacts StoreFacts TrimFacts
       StoreInvariants.

(** *** Listing and search *)

Lemma newer_first_trans : Relations_1.Transitive newer_first.
Proof. intros a b c Hab Hbc. unfold newer_first in *. lia. Qed.

Lemma insert_desc_front (n : Note) (rows : list Note) :
  Forall (fun m => (createdAt m <= createdAt n)%Z) rows ->
  insert_desc n rows = n :: rows.
Proof.
  destruct rows as [|m rest]; [reflexivity|]. intros H. inversion H; subst. simpl.
  destruct (Z.ltb_spec (createdAt n) (createdAt m)); [lia | reflexivity].
Qed.

Lemma filter_insert_desc (f : Note -> bool) (n : Note) (rows : list Note) :
  StronglySorted newer_first rows -> f n = true ->
  filter f (insert_desc n rows) = insert_desc n (filter f rows).
Proof.
  intros Hs Hn. induction Hs as [|m rest Hs IH Hm]; simpl; [now rewrite Hn|].
  destruct (Z.ltb_spec (createdAt n) (createdAt m)) as [E|E]; simpl.
  - destruct (f m); simpl; rewrite IH; [|reflexivity].
    destruct (Z.ltb_spec (createdAt n) (createdAt m)); [reflexivity | lia].
  - rewrite Hn. symmetry. apply insert_desc_front.
    assert (Hall : Forall (fun x => (createdAt x <= createdAt n)%Z) (m :: rest)).
    { constructor; [exact E|]. rewrite Forall_forall in *. intros x Hx.
      specialize (Hm x Hx). unfold newer_first in Hm. lia. }
    rewrite Forall_forall in *. intros x Hx. apply Hall.
    change (In x (filter f (m :: rest))) in Hx. now apply filter_In in Hx.
Qed.

(** Selecting rows and ordering them can be done in either order. *)
Lemma order_by_filter (f : Note -> bool) (rows : list Note) :
  order_by_createdAt_desc (filter f rows) = filter f (order_by_createdAt_desc rows).
Proof.
  induction rows as [|n rest IH]; simpl; [reflexivity|].
  destruct (f n) eqn:E; simpl.
  - rewrite IH. symmetry. apply filter_insert_desc; trivial.
    apply Sorted_StronglySorted; [exact newer_first_trans | apply order_by_sorted].
  - rewrite IH. clear IH.
    induction (order_by_createdAt_desc rest) as [|m l IHl]; simpl; [now rewrite E|].
    destruct (createdAt n <? createdAt m)%Z; simpl.
    + now rewrite IHl.
    + now rewrite E.
Qed.


(** X: whatever the keyword, the search returns the notes of the listing
    that match the pattern, in the order of the listing. *)
Theorem search_filters_listing (q : option string) (db : table) :
  payload (get_notes_search q db)
  = filter (like_match (match q with Some k => k | None => "" end)) (listAll db).
Proof.
  unfold get_notes_search, listAll, get_notes, like_match. simpl payload.
  apply order_by_filter.
Qed.



(** X: the listing holds every note of the table exactly once, the most
    recently created first. *)
Theorem listing_newest_first (db : table) :
  Permutation (listAll db) db /\ StronglySorted newer_first (listAll db).
Proof.
  unfold listAll, get_notes. cbn [payload]. split; [apply order_by_perm|].
  apply Sorted_StronglySorted; [exact newer_first_trans | apply order_by_sorted].
Qed.

(** X: a search without a keyword, or with the empty keyword, answers
    what the listing answers. *)
Theorem search_without_keyword (db : table) :
  get_notes_search None db = get_notes db
  /\ get_notes_search (Some "") db = get_notes db.
Proof.
  split; unfold get_notes_search, get_notes;
    change ("%" ++ "" ++ "%") with "%%"; f_equal; f_equal;
    apply filter_all; intros n; now rewrite (like_percent "%" (title n)), like_any.
Qed.

(** *** Invariants *)

Lemma run_invariant (P : table -> Prop) :
  (forall db r, P db -> P (step db r)) ->
  forall rs db, P db -> P (run db rs).
Proof.
  intros Hstep. unfold run. induction rs as [|r rs IH]; intros db H; simpl; [exact H|].
  apply IH. now apply Hstep.
Qed.

(** X: the ids stay pairwise different under every sequence of
    requests: a create with an id that is in use changes nothing. *)
Theorem unique_ids_kept (db : table) (rs : list request) :
  unique_ids db -> unique_ids (run db rs).
Proof. apply run_invariant. exact step_unique_ids. Qed.

Lemma unique_ids_kept_witness :
  let body := mkBody (Some "Trip") (Some "hotel booking") None in
  unique_ids [mkNote "n1" "Exam" "study" "Educational" 1 1]
  /\ run [mkNote "n1" "Exam" "study" "Educational" 1 1]
       [Create "n1" 2 body; Create "n2" 3 body]
     = [mkNote "n1" "Exam" "study" "Educational" 1 1;
        mkNote "n2" "Trip" "hotel booking" "Travel" 3 3]
  /\ unique_ids (run [mkNote "n1" "Exam" "study" "Educational" 1 1]
                   [Create "n1" 2 body; Create "n2" 3 body]).
Proof.
  assert (H : unique_ids [mkNote "n1" "Exam" "study" "Educational" 1 1]).
  { unfold unique_ids. simpl. constructor; [intros [] | constructor]. }
  split; [exact H|]. split; [vm_compute; reflexivity|].
  exact (unique_ids_kept _ _ H).
Defined.

(** X: every stored title and content stays non-empty and free of white
    space at both ends under every sequence of requests. *)
Theorem texts_stay_trimmed (db : table) (rs : list request) :
  texts_trimmed db -> texts_trimmed (run db rs).
Proof. apply run_invariant. exact step_texts_trimmed. Qed.

Lemma texts_stay_trimmed_witness :
  texts_trimmed []
  /\ run [] [Create "n1" 1 (mkBody (Some "  Trip ") (Some " hotel  ") None);
             Create "n2" 2 (mkBody (Some "   ") (Some "x") None)]
     = [mkNote "n1" "Trip" "hotel" "Travel" 1 1]
  /\ texts_trimmed (run [] [Create "n1" 1 (mkBody (Some "  Trip ") (Some " hotel  ") None);
                            Create "n2" 2 (mkBody (Some "   ") (Some "x") None)]).
Proof.
  split; [constructor|]. split; [vm_compute; reflexivity|].
  exact (texts_stay_trimmed [] _ (Forall_nil _)).
Defined.

(** X: when no note is dated after the request, a request keeps
    [createdAt <= updatedAt] for every note. *)
Theorem times_stay_ordered (db : table) (r : request) :
  times_ordered db -> not_before db r -> times_ordered (step db r).
Proof. apply step_times_ordered. Qed.

Lemma times_stay_ordered_witness :
  let db := [mkNote "n1" "Exam" "study" "Educational" 5 5] in
  let r := Update "n1" 8 (mkBody (Some "Trip") (Some "hotel") None) in
  times_ordered db /\ not_before db r
  /\ step db r = [mkNote "n1" "Trip" "hotel" "Travel" 5 8]
  /\ times_ordered (step db r).
Proof.
  assert (H1 : times_ordered [mkNote "n1" "Exam" "study" "Educational" 5 5]).
  { constructor; [simpl; lia | constructor]. }
  assert (H2 : not_before [mkNote "n1" "Exam" "study" "Educational" 5 5]
                 (Update "n1" 8 (mkBody (Some "Trip") (Some "hotel") None))).
  { constructor; [simpl; lia | constructor]. }
  split; [exact H1|]. split; [exact H2|]. split; [vm_compute; reflexivity|].
  exact (times_stay_ordered _ _ H1 H2).
Defined.

(** *** What create, update and delete do *)

Lemma resolve_category_total (manual : option string) (t c : string) :
  exists cat, resolve_category manual t c = Some cat.
Proof.
  unfold resolve_category. destruct (categorize_known t c) as (cat & Hc & _).
  destruct manual as [m|]; [|now exists cat].
  destruct (negb (truthy m) || String.eqb m "Auto"); [now exists cat | now exists m].
Qed.












(** X: the category of a note that a create or an update returns is the
    category named in the request, unless that is absent, empty or
    "Auto"; then it is what the engine makes of the title and content
    as they are stored. *)
Theorem category_of_answer (db : table) (now : Z) (body : Body) :
  (forall new_id db' n,
      post_note new_id now body db = (db', Ok n) ->
      resolve_category (manualCategory body) (title n) (content n) = Some (category n))
  /\ (forall i db' n,
         put_note i now body db = (db', Ok n) ->
         resolve_category (manualCategory body) (title n) (content n) = Some (category n))
  /\ (forall t c,
         (manualCategory body = None \/ manualCategory body = Some ""
          \/ manualCategory body = Some "Auto") ->
         resolve_category (manualCategory body) t c = categorize t c)
  /\ (forall t c m,
         manualCategory body = Some m -> m <> "" -> m <> "Auto" ->
         resolve_category (manualCategory body) t c = Some m).
Proof.
  split; [|split; [|split]].
  - intros new_id db' n H.
    destruct (post_note_cases new_id now body db) as [[_ Hno] | (cat & Hc & _ & _ & _ & E)].
    + exfalso. apply (Hno n). now rewrite H.
    + rewrite E in H. injection H as _ <-. exact Hc.
  - intros i db' n H.
    destruct (put_note_cases i now body db) as [[_ Hno] | (e & cat & _ & Hc & _ & _ & E)].
    + exfalso. apply (Hno n). now rewrite H.
    + rewrite E in H. injection H as _ <-. exact Hc.
  - intros t c [-> | [-> | ->]]; reflexivity.
  - intros t c m -> H1 H2. unfold resolve_category.
    apply truthy_nonempty in H1. apply String.eqb_neq in H2. now rewrite H1, H2.
Qed.

Lemma category_of_answer_witness :
  let db := [mkNote "n1" "Exam" "study" "Educational" 1 1] in
  let body := mkBody (Some "Trip") (Some "hotel") (Some "Finance") in
  put_note "n1" 4 body db
  = ([mkNote "n1" "Trip" "hotel" "Finance" 1 4], Ok (mkNote "n1" "Trip" "hotel" "Finance" 1 4))
  /\ resolve_category (manualCategory body) "Trip" "hotel" = Some "Finance".
Proof.
  split; [vm_compute; reflexivity|].
  exact (proj1 (proj2 (category_of_answer [mkNote "n1" "Exam" "study" "Educational" 1 1] 4%Z
                         (mkBody (Some "Trip") (Some "hotel") (Some "Finance"))))
           "n1" _ (mkNote "n1" "Trip" "hotel" "Finance" 1 4) eq_refl).
Defined.

End StoreExtras.

(** ** The categories in use *)

Module CategoriesFacts.
Import JSString Engine Store Notions Categories MoreNotions StoreFacts.

Lemma add_value_spec (seen : list string) (v : string) :
  NoDup seen ->
  NoDup (add_value seen v) /\ forall w, In w (add_value seen v) <-> In w seen \/ w = v.
Proof.
  intros H. unfold add_value. destruct (existsb (String.eqb v) seen) eqn:E.
  - split; trivial. intros w. split; [now left|]. intros [Hw | ->]; trivial.
    apply existsb_exists in E as (x & Hx & Ex). apply String.eqb_eq in Ex. now subst.
  - split.
    + apply NoDup_app_remove_l with (l := []). simpl.
      apply Permutation_NoDup with (l := v :: seen); [apply Permutation_cons_append|].
      constructor; trivial. intros Hv.
      assert (Ht : existsb (String.eqb v) seen = true).
      { apply existsb_exists. exists v. split; trivial. apply String.eqb_refl. }
      congruence.
    + intros w. rewrite in_app_iff. simpl. intuition.
Qed.

Lemma fold_add_value (values : list string) :
  forall seen,
    NoDup seen ->
    NoDup (fold_left add_value values seen)
    /\ forall w, In w (fold_left add_value values seen) <-> In w seen \/ In w values.
Proof.
  induction values as [|v rest IH]; intros seen H; simpl.
  - split; trivial. intros w. tauto.
  - destruct (add_value_spec seen v H) as [Hn Hin].
    destruct (IH _ Hn) as [Hn' Hin']. split; trivial.
    intros w. rewrite Hin', Hin. intuition.
Qed.

Lemma distinct_spec (values : list string) :
  NoDup (distinct values) /\ forall w, In w (distinct values) <-> In w values.
Proof.
  destruct (fold_add_value values [] (NoDup_nil _)) as [Hn Hin]. split; trivial.
  intros w. unfold distinct. rewrite Hin. simpl. tauto.
Qed.

Lemma insert_asc_perm (v : string) (l : list string) :
  Permutation (insert_asc v l) (v :: l).
Proof.
  induction l as [|w rest IH]; simpl; [reflexivity|].
  destruct (String.leb v w); [reflexivity|]. rewrite IH. apply perm_swap.
Qed.

Lemma sort_asc_perm (l : list string) : Permutation (sort_asc l) l.
Proof.
  induction l as [|v rest IH]; simpl; [reflexivity|].
  rewrite insert_asc_perm. now constructor.
Qed.

Lemma leb_false_lt (v w : string) : String.leb v w = false -> String.leb w v = true.
Proof. intros H. destruct (String.leb_total v w); congruence. Qed.

Lemma insert_asc_sorted (v : string) (l : list string) :
  Sorted (fun a b => String.leb a b = true) l ->
  Sorted (fun a b => String.leb a b = true) (insert_asc v l).
Proof.
  induction l as [|w rest IH]; intros H; simpl.
  - repeat constructor.
  - destruct (String.leb v w) eqn:E.
    + constructor; [exact H | now constructor].
    + inversion H as [|? ? Hs Hh]; subst. constructor; [now apply IH|].
      destruct rest as [|w' rest']; simpl.
      * constructor. now apply leb_false_lt.
      * destruct (String.leb v w'); constructor; [now apply leb_false_lt | now inversion Hh].
Qed.

Lemma sort_asc_sorted (l : list string) :
  Sorted (fun a b => String.leb a b = true) (sort_asc l).
Proof.
  induction l as [|v rest IH]; simpl; [constructor | now apply insert_asc_sorted].
Qed.

Lemma string_lt_trans : Relations_1.Transitive string_lt.
Proof.
  intros a b c Hab Hbc. unfold string_lt in *.
  apply OrderedTypeEx.String_as_OT.cmp_lt in Hab, Hbc.
  apply OrderedTypeEx.String_as_OT.cmp_lt.
  exact (OrderedTypeEx.String_as_OT.lt_trans _ _ _ Hab Hbc).
Qed.

Lemma string_lt_irrefl (a : string) : ~ string_lt a a.
Proof.
  unfold string_lt. intros H.
  assert (E : String.compare a a = Eq) by now apply OrderedTypeEx.String_as_OT.cmp_eq.
  congruence.
Qed.

Lemma leb_neq_lt (a b : string) : String.leb a b = true -> a <> b -> string_lt a b.
Proof.
  unfold String.leb, string_lt. intros H Hn.
  destruct (String.compare a b) eqn:E; trivial; [|discriminate].
  elim Hn. now apply OrderedTypeEx.String_as_OT.cmp_eq.
Qed.

Lemma sorted_strict (l : list string) :
  Sorted (fun a b => String.leb a b = true) l -> NoDup l -> Sorted string_lt l.
Proof.
  induction l as [|a rest IH]; intros Hs Hn; [constructor|].
  inversion Hs as [|? ? Hs' Hh]; inversion Hn as [|? ? Ha Hn']; subst.
  constructor; [now apply IH|].
  destruct rest as [|b rest']; constructor.
  apply leb_neq_lt; [now inversion Hh|]. intros ->. apply Ha. now left.
Qed.

(** Two strictly ascending lists with the same elements are equal. *)
Lemma strict_sorted_unique (l1 : list string) :
  forall l2,
    StronglySorted string_lt l1 -> StronglySorted string_lt l2 ->
    (forall x, In x l1 <-> In x l2) -> l1 = l2.
Proof.
  induction l1 as [|a t1 IH]; intros l2 H1 H2 Hin.
  - destruct l2 as [|b t2]; [reflexivity|]. now elim (proj2 (Hin b) (or_introl eq_refl)).
  - destruct l2 as [|b t2]; [now elim (proj1 (Hin a) (or_introl eq_refl))|].
    inversion H1 as [|? ? Hs1 Ha]; inversion H2 as [|? ? Hs2 Hb]; subst.
    rewrite Forall_forall in Ha, Hb.
    assert (E : a = b).
    { destruct (proj1 (Hin a) (or_introl eq_refl)) as [E | Hat2]; [now symmetry|].
      destruct (proj2 (Hin b) (or_introl eq_refl)) as [E | Hbt1]; [exact E|].
      elim (string_lt_irrefl a). exact (string_lt_trans _ _ _ (Ha _ Hbt1) (Hb _ Hat2)). }
    subst b. f_equal. apply IH; trivial.
    intros x. split; intros Hx.
    + destruct (proj1 (Hin x) (or_intror Hx)) as [<- | Hx2]; trivial.
      elim (string_lt_irrefl a). now apply Ha.
    + destruct (proj2 (Hin x) (or_intror Hx)) as [<- | Hx1]; trivial.
      elim (string_lt_irrefl a). now apply Hb.
Qed.

Lemma sort_distinct_spec (values : list string) :
  StronglySorted string_lt (sort_asc (distinct values))
  /\ forall w, In w (sort_asc (distinct values)) <-> In w values.
Proof.
  destruct (distinct_spec values) as [Hn Hin]. split.
  - apply Sorted_StronglySorted; [exact string_lt_trans|].
    apply sorted_strict; [apply sort_asc_sorted|].
    apply Permutation_NoDup with (l := distinct values); trivial.
    symmetry. apply sort_asc_perm.
  - intros w. rewrite <- Hin. split; apply Permutation_in; [|symmetry]; apply sort_asc_perm.
Qed.

(** The outcome depends on the values only, not on their order or
    number. *)
Lemma sort_distinct_ext (l1 l2 : list string) :
  (forall w, In w l1 <-> In w l2) -> sort_asc (distinct l1) = sort_asc (distinct l2).
Proof.
  intros H. destruct (sort_distinct_spec l1) as [S1 I1], (sort_distinct_spec l2) as [S2 I2].
  apply strict_sorted_unique; trivial. intros x. now rewrite I1, I2.
Qed.

(** X: GET /api/categories answers the categories of the stored notes,
    each once, in strictly ascending order of the character codes. *)
Theorem categories_sorted_distinct (db : table) :
  StronglySorted string_lt (categories_in_use db)
  /\ NoDup (categories_in_use db)
  /\ forall c, In c (categories_in_use db) <-> exists n, In n db /\ category n = c.
Proof.
  unfold categories_in_use, get_categories.
  destruct (sort_distinct_spec (map category db)) as [Hs Hin].
  split; [exact Hs|]. split.
  - apply Permutation_NoDup with (l := distinct (map category db)).
    + symmetry. apply sort_asc_perm.
    + apply distinct_spec.
  - intros c. rewrite Hin, in_map_iff. split; intros (n & A & B); exists n; now split.
Qed.

End CategoriesFacts.

(** ** The start of the server *)

Module MigrationFacts.
Import JSString Engine Store Notions Migration MoreNotions StoreFacts.

#[local] Arguments categorize : simpl never.

Lemma set_category_known (cat i : string) (db : table) :
  In cat known_labels -> all_known db -> all_known (set_category cat i db).
Proof.
  unfold all_known, set_category. intros Hc H. rewrite Forall_map.
  rewrite Forall_forall in *. intros n Hn.
  destruct (String.eqb (id n) i); [exact Hc | now apply H].
Qed.

Lemma recategorize_known (existingNotes : list (string * string * string)) :
  forall db, all_known db -> all_known (recategorize existingNotes db).
Proof.
  induction existingNotes as [|[[i t] c] rest IH]; intros db H; [exact H|].
  cbn [recategorize]. destruct (categorize_known t c) as (cat & Hc & Hk).
  rewrite Hc. apply IH. apply set_category_known; assumption.
Qed.

(** X: whatever the legacy table holds, every note of the table with
    which the server starts from it carries one of the eight labels. *)
Theorem migration_known_labels (rows : list LegacyNote) :
  all_known (initDb (Legacy rows)).
Proof.
  unfold initDb. apply recategorize_known. unfold all_known, add_category_column.
  rewrite Forall_map, Forall_forall. intros r _. simpl. tauto.
Qed.

Lemma engine_label_some (t c : string) : categorize t c = Some (engine_label t c).
Proof.
  unfold engine_label. destruct (categorize_known t c) as (cat & Hc & _).
  rewrite Hc. reflexivity.
Qed.

Lemma recategorize_pending (pending : list Note) :
  forall db,
    NoDup (map id pending) ->
    recategorize (map (fun n => (id n, title n, content n)) pending) db
    = map (with_label pending) db.
Proof.
  induction pending as [|p rest IH]; intros db Hu.
  - cbn [map recategorize]. symmetry. unfold with_label. cbn [find]. apply map_id.
  - inversion Hu as [|? ? Hp Hrest]; subst.
    cbn [map recategorize].
    rewrite engine_label_some, (IH _ Hrest). unfold set_category. rewrite map_map.
    apply map_ext. intros n. unfold with_label at 2. cbn [find].
    destruct (String.eqb_spec (id n) (id p)) as [E|E].
    + rewrite (proj2 (String.eqb_eq (id p) (id n)) (eq_sym E)).
      unfold with_label. cbn [id].
      destruct (find (fun q => String.eqb (id q) (id n)) rest) as [q|] eqn:Hq; [|reflexivity].
      exfalso. apply Hp. apply find_some in Hq as [Hin Hid].
      apply String.eqb_eq in Hid. rewrite <- E, <- Hid. apply in_map. exact Hin.
    + rewrite (proj2 (String.eqb_neq (id p) (id n)) (fun H => E (eq_sym H))).
      reflexivity.
Qed.

Lemma find_self (db : table) (n : Note) :
  NoDup (map id db) -> In n db ->
  find (fun p => String.eqb (id p) (id n)) db = Some n.
Proof.
  induction db as [|m rest IH]; simpl; intros Hu Hin; [contradiction|].
  inversion Hu as [|? ? Hm Hrest]; subst.
  destruct Hin as [-> | Hin]; [now rewrite String.eqb_refl|].
  destruct (String.eqb_spec (id m) (id n)) as [E|E]; [|now apply IH].
  exfalso. apply Hm. rewrite E. now apply in_map.
Qed.

Lemma add_category_column_ids (rows : list LegacyNote) :
  map id (add_category_column rows) = map legacy_id rows.
Proof. unfold add_category_column. rewrite map_map. reflexivity. Qed.

(** X: when the ids of the legacy table are pairwise different, the
    table with which the server starts has one note for every legacy
    row, in the same order, with the id, title, content and time stamps
    of the row and the category that the engine gives to its title and
    content. *)
Theorem migration_recategorizes (rows : list LegacyNote) :
  NoDup (map legacy_id rows) ->
  Forall2 migrated rows (initDb (Legacy rows)).
Proof.
  intros Hu. unfold initDb.
  assert (Hu' : NoDup (map id (add_category_column rows)))
    by (rewrite add_category_column_ids; exact Hu).
  rewrite (recategorize_pending _ _ Hu').
  rewrite (map_ext_in (with_label (add_category_column rows))
             (fun n => mkNote (id n) (title n) (content n)
                         (engine_label (title n) (content n)) (createdAt n) (updatedAt n))).
  - clear Hu Hu'. unfold add_category_column. rewrite map_map.
    induction rows as [|r rest IH]; cbn [map]; constructor; [|exact IH].
    unfold migrated. cbn [id title content category createdAt updatedAt].
    repeat (split; [reflexivity|]). apply engine_label_some.
  - intros n Hn. unfold with_label. rewrite (find_self _ _ Hu' Hn). reflexivity.
Qed.

Lemma migration_recategorizes_witness :
  let rows := [mkLegacy "a" "Exam week" "study for the test" 1 2;
               mkLegacy "b" "Random" "nothing here" 3 3] in
  NoDup (map legacy_id rows)
  /\ initDb (Legacy rows)
     = [mkNote "a" "Exam week" "study for the test" "Educational" 1 2;
        mkNote "b" "Random" "nothing here" "General" 3 3]
  /\ Forall2 migrated rows (initDb (Legacy rows)).
Proof.
  assert (H : NoDup (map legacy_id [mkLegacy "a" "Exam week" "study for the test" 1 2;
                                    mkLegacy "b" "Random" "nothing here" 3 3])).
  { simpl. constructor.
    - intros [E | []]. discriminate E.
    - constructor; [intros [] | constructor]. }
  split; [exact H|]. split; [vm_compute; reflexivity|].
  exact (migration_recategorizes _ H).
Defined.

End MigrationFacts.

(** ** More on the engine *)

Module EngineExtras.
Import JSString RegExp Engine Notions MoreNotions CharFacts RegExpFacts EngineFacts.

Lemma lower_upper (c : ascii) : lower_char (upper_char c) = lower_char c.
Proof. ascii_cases c; reflexivity. Qed.

Lemma char_eq_ci_lower_eq (c d : ascii) :
  char_eq_ci c d = true -> lower_char c = lower_char d.
Proof.
  intros H. apply char_eq_ci_upper in H.
  rewrite <- (lower_upper c), <- (lower_upper d), H. reflexivity.
Qed.

Lemma eq_ci_toLowerCase_eq (s : string) :
  forall s', eq_ci s s' = true -> toLowerCase s = toLowerCase s'.
Proof.
  induction s as [|c s IH]; intros s' H.
  - rewrite (eq_ci_nil_l _ H). reflexivity.
  - destruct (eq_ci_cons_l _ _ _ H) as (d & t & -> & Hc & H').
    cbn [toLowerCase]. rewrite (char_eq_ci_lower_eq _ _ Hc), (IH _ H'). reflexivity.
Qed.

(** X: the category does not depend on the case of the letters of the
    title and the content. *)
Theorem categorize_ignores_case (title title' content content' : string) :
  eq_ci title title' = true -> eq_ci content content' = true ->
  categorize title content = categorize title' content'.
Proof.
  intros Ht Hc. unfold categorize, categorize_in.
  rewrite (eq_ci_toLowerCase_eq _ _ Ht), (eq_ci_toLowerCase_eq _ _ Hc). reflexivity.
Qed.

Lemma categorize_ignores_case_witness :
  eq_ci "BUDGET Meeting" "budget meeting" = true
  /\ eq_ci "Call the CLIENT" "call the client" = true
  /\ categorize "BUDGET Meeting" "Call the CLIENT"
     = categorize "budget meeting" "call the client".
Proof.
  split; [reflexivity|]. split; [reflexivity|].
  exact (categorize_ignores_case "BUDGET Meeting" "budget meeting"
           "Call the CLIENT" "call the client" eq_refl eq_refl).
Defined.

Lemma category_score_pos (tl cl : string) (keywords : list string) :
  0 < category_score tl cl keywords ->
  exists k, In k keywords /\ 0 < occurrences k tl + occurrences k cl.
Proof.
  unfold category_score, list_sum.
  induction keywords as [|k rest IH]; cbn [map fold_right]; intros H; [inversion H|].
  destruct (Nat.eq_dec (points tl cl k) 0) as [E|E].
  - rewrite E in H. destruct (IH H) as (k' & Hin & Hk'). exists k'. split; [now right | exact Hk'].
  - exists k. split; [now left|]. unfold points in E. lia.
Qed.

Lemma category_score_ge (tl cl : string) (keywords : list string) (k : string) :
  In k keywords -> points tl cl k <= category_score tl cl keywords.
Proof.
  unfold category_score, list_sum.
  induction keywords as [|k' rest IH]; cbn [map fold_right]; [intros []|].
  intros [-> | Hin]; [lia|]. specialize (IH Hin). lia.
Qed.

(** X: a category other than General is returned only when one of its
    own keywords occurs in the title or in the content. *)
Theorem category_needs_keyword (title content cat : string) :
  categorize title content = Some cat -> cat <> "General" ->
  exists keywords, In (cat, keywords) CATEGORIES /\ keyword_occurs title content keywords.
Proof.
  intros H Hg. unfold categorize, categorize_in in H.
  destruct (best_of_first_max (toLowerCase title) (toLowerCase content) CATEGORIES "General" 0)
    as [[Hb _] | (bf & c & kws & af & Heq & Hb & Hlt & _)]; rewrite Hb in H.
  - injection H as <-. now elim Hg.
  - injection H as <-. exists kws. split.
    + rewrite Heq. apply in_elt.
    + cbn beta iota delta [snd] in Hlt. exact (category_score_pos _ _ _ Hlt).
Qed.

Lemma category_needs_keyword_witness :
  categorize "Trip to the mountains" "hotel" = Some "Travel"
  /\ exists keywords, In ("Travel", keywords) CATEGORIES
                      /\ keyword_occurs "Trip to the mountains" "hotel" keywords.
Proof.
  assert (H : categorize "Trip to the mountains" "hotel" = Some "Travel")
    by (vm_compute; reflexivity).
  split; [exact H|].
  apply (category_needs_keyword _ _ _ H). discriminate.
Defined.

(** A check that decides that the keywords of all other entries are
    absent. *)
Lemma others_silent_check (tl cl : string) (entry : string * list string) :
  forallb (fun e : string * list string =>
             (if String.eqb (fst e) (fst entry) then
                if list_eq_dec string_dec (snd e) (snd entry) then true else false
              else false)
             || forallb (fun k => (occurrences k tl =? 0) && (occurrences k cl =? 0)) (snd e))
          CATEGORIES = true ->
  forall e, In e CATEGORIES -> e <> entry ->
            forall k, In k (snd e) -> occurrences k tl = 0 /\ occurrences k cl = 0.
Proof.
  intros H e He Hne k Hk. rewrite forallb_forall in H. specialize (H _ He).
  apply orb_true_iff in H as [H | H].
  - exfalso. apply Hne. destruct e as [c kws], entry as [c' kws']. cbn [fst snd] in H.
    destruct (String.eqb_spec c c') as [-> |]; [|discriminate].
    destruct (list_eq_dec string_dec kws kws') as [-> |]; [reflexivity | discriminate].
  - rewrite forallb_forall in H. specialize (H _ Hk).
    apply andb_true_iff in H as [H1 H2]. apply Nat.eqb_eq in H1, H2. now split.
Qed.

(** X: when keywords of one entry of the taxonomy occur and no keyword
    of any other entry does, the category of that entry is returned. *)
Theorem single_category_wins (title content cat : string) (keywords : list string) :
  In (cat, keywords) CATEGORIES ->
  keyword_occurs title content keywords ->
  (forall e, In e CATEGORIES -> e <> (cat, keywords) ->
             forall k, In k (snd e) ->
                       occurrences k (toLowerCase title) = 0
                       /\ occurrences k (toLowerCase content) = 0) ->
  categorize title content = Some cat.
Proof.
  intros Hin (k & Hk & Hocc) Hothers. unfold categorize, categorize_in.
  assert (Hpos : 0 < category_score (toLowerCase title) (toLowerCase content) keywords).
  { pose proof (category_score_ge (toLowerCase title) (toLowerCase content) _ _ Hk) as Hge.
    unfold points in Hge. lia. }
  destruct (best_of_first_max (toLowerCase title) (toLowerCase content) CATEGORIES "General" 0)
    as [[_ Hle] | (bf & c & kws & af & Heq & Hb & Hlt & _)].
  - specialize (Hle _ Hin). cbn beta iota delta [snd] in Hle. lia.
  - rewrite Hb. f_equal.
    destruct (string_dec c cat) as [E|E]; [exact E|]. exfalso.
    cbn beta iota delta [snd] in Hlt.
    rewrite (category_score_zero _ _ kws) in Hlt; [lia|].
    intros k' Hk'. apply (Hothers (c, kws)); trivial.
    + rewrite Heq. apply in_elt.
    + intros [= Ec _]. contradiction.
Qed.

Lemma single_category_wins_witness :
  categorize "Flight tomorrow" "pack the luggage" = Some "Travel".
Proof.
  apply (single_category_wins _ _ _ (snd (nth 6 CATEGORIES ("", [])))).
  - do 6 right. left. reflexivity.
  - exists "flight". split; [left; reflexivity|]. vm_compute. lia.
  - apply (others_silent_check _ _ ("Travel", snd (nth 6 CATEGORIES ("", [])))).
    vm_compute. reflexivity.
Defined.

End EngineExtras.

(** ** The client *)

Module ClientFacts.
Import JSString RegExp Engine Store Notions Categories Client MoreNotions CharFacts
       StoreFacts TrimFacts StoreInvariants StoreExtras CategoriesFacts EngineExtras.

#[local] Arguments categorize : simpl never.

(** *** Search in the list *)

Lemma is_space_lower (c : ascii) : is_space (lower_char c) = is_space c.
Proof. ascii_cases c; reflexivity. Qed.

Lemma trimStart_lower (s : string) : trimStart (toLowerCase s) = toLowerCase (trimStart s).
Proof.
  induction s as [|c s IH]; [reflexivity|]. cbn [toLowerCase trimStart].
  rewrite is_space_lower. destruct (is_space c); [exact IH | reflexivity].
Qed.

Lemma trimEnd_lower (s : string) : trimEnd (toLowerCase s) = toLowerCase (trimEnd s).
Proof.
  induction s as [|c s IH]; [reflexivity|]. cbn [toLowerCase trimEnd].
  rewrite IH, is_space_lower.
  destruct (trimEnd s); cbn [toLowerCase]; [destruct (is_space c)|]; reflexivity.
Qed.

Lemma trim_lower (s : string) : trim (toLowerCase s) = toLowerCase (trim s).
Proof. unfold trim. now rewrite trimStart_lower, trimEnd_lower. Qed.

Lemma eqb_lower (c d : ascii) :
  Ascii.eqb (lower_char c) (lower_char d) = char_eq_ci c d.
Proof.
  unfold char_eq_ci, canonicalize.
  destruct (Ascii.eqb_spec (lower_char c) (lower_char d)) as [E|E],
           (Ascii.eqb_spec (upper_char c) (upper_char d)) as [F|F]; trivial.
  - elim F. now rewrite <- (upper_lower c), <- (upper_lower d), E.
  - elim E. now rewrite <- (lower_upper c), <- (lower_upper d), F.
Qed.

Lemma starts_with_lower (k : string) :
  forall s, starts_with (toLowerCase k) (toLowerCase s) = prefix_ci k s.
Proof.
  induction k as [|c k IH]; intros s; [reflexivity|].
  destruct s as [|d s]; [reflexivity|]. cbn [toLowerCase starts_with prefix_ci].
  now rewrite eqb_lower, IH.
Qed.

Lemma includes_lower (k s : string) :
  includes (toLowerCase s) (toLowerCase k) = contains_ci k s.
Proof.
  induction s as [|d s IH].
  - cbn [toLowerCase includes contains_ci].
    rewrite <- (starts_with_lower k ""). reflexivity.
  - cbn [toLowerCase includes contains_ci].
    rewrite IH, <- (starts_with_lower k (String d s)). reflexivity.
Qed.

Lemma searchNotes_filter (keyword : string) (notes : list Note) :
  trim keyword <> "" ->
  searchNotes keyword notes = filter (contains_match (trim keyword)) notes.
Proof.
  intros H. unfold searchNotes. apply truthy_nonempty in H. rewrite H. cbn [negb].
  apply filter_ext. intros n. unfold contains_match.
  now rewrite trim_lower, !includes_lower.
Qed.

Lemma searchNotes_blank (keyword : string) (notes : list Note) :
  trim keyword = "" -> searchNotes keyword notes = notes.
Proof. intros H. unfold searchNotes. now rewrite H. Qed.

(** X: the search of the client returns the whole list for a keyword
    that is blank, and otherwise the notes of the list whose title or
    content contains the trimmed keyword up to case, in the order of the
    list. *)
Theorem client_search (keyword : string) (notes : list Note) :
  (trim keyword = "" -> searchNotes keyword notes = notes)
  /\ (trim keyword <> "" ->
      searchNotes keyword notes = filter (contains_match (trim keyword)) notes).
Proof. split; [apply searchNotes_blank | apply searchNotes_filter]. Qed.

Lemma client_search_witness :
  let n1 := mkNote "n1" "Budget" "meeting at ten" "Business" 1 1 in
  let n2 := mkNote "n2" "Trip" "hotel" "Travel" 2 2 in
  trim " 100%_ " <> ""
  /\ searchNotes "  BUD " [n2; n1] = [n1]
  /\ searchNotes " 100%_ " [n2; n1] = filter (contains_match (trim " 100%_ ")) [n2; n1].
Proof.
  assert (H : trim " 100%_ " <> "") by discriminate.
  split; [exact H|]. split; [reflexivity|].
  exact (proj2 (client_search " 100%_ " _) H).
Defined.



(** *** The list and the table *)


Lemma unique_id_eq (db : table) (a b : Note) :
  unique_ids db -> In a db -> In b db -> id a = id b -> a = b.
Proof.
  unfold unique_ids. induction db as [|m rest IH]; intros Hu Ha Hb E; [contradiction|].
  inversion Hu as [|? ? Hm Hrest]; subst. cbn [map] in *.
  destruct Ha as [-> | Ha], Hb as [-> | Hb]; trivial.
  - elim Hm. rewrite E. now apply in_map.
  - elim Hm. rewrite <- E. now apply in_map.
  - now apply IH.
Qed.



(** X: with pairwise different ids, looking a note up in the listing
    gives the row that the server finds for the id. *)
Theorem getNoteById_listing (db : table) (i : string) :
  unique_ids db -> getNoteById i (listAll db) = queryOne i db.
Proof.
  intros Hu. unfold getNoteById, listAll, get_notes. cbn [payload].
  destruct (queryOne i db) as [e|] eqn:Hq.
  - destruct (queryOne_some _ _ _ Hq) as [He Hi].
    destruct (find (fun note => String.eqb (id note) i) (order_by_createdAt_desc db))
      as [n|] eqn:Hf.
    + apply find_some in Hf as [Hn En]. apply String.eqb_eq in En.
      apply (proj1 (order_by_In _ _)) in Hn. f_equal.
      apply (unique_id_eq db); trivial. congruence.
    + exfalso. pose proof (find_none _ _ Hf e (proj2 (order_by_In _ _) He)) as Hne.
      cbn beta in Hne. apply String.eqb_neq in Hne. contradiction.
  - apply queryOne_none in Hq.
    destruct (find (fun note => String.eqb (id note) i) (order_by_createdAt_desc db))
      as [n|] eqn:Hf; [|reflexivity].
    exfalso. apply find_some in Hf as [Hn En]. apply String.eqb_eq in En.
    apply (proj1 (order_by_In _ _)) in Hn. apply Hq. unfold present.
    rewrite <- En. now apply in_map.
Qed.

Lemma getNoteById_listing_witness :
  let n1 := mkNote "n1" "Exam" "study" "Educational" 1 1 in
  let n2 := mkNote "n2" "Trip" "hotel" "Travel" 2 2 in
  unique_ids [n1; n2]
  /\ getNoteById "n1" (listAll [n1; n2]) = Some n1
  /\ getNoteById "n1" (listAll [n1; n2]) = queryOne "n1" [n1; n2].
Proof.
  assert (Hu : unique_ids [mkNote "n1" "Exam" "study" "Educational" 1 1;
                           mkNote "n2" "Trip" "hotel" "Travel" 2 2]).
  { unfold unique_ids. cbn [map id]. constructor.
    - intros [E | []]. discriminate E.
    - constructor; [intros [] | constructor]. }
  split; [exact Hu|]. split; [reflexivity|].
  exact (getNoteById_listing _ "n1" Hu).
Defined.

(** *** The form *)

Lemma missing_some (v : string) : missing (Some v) = negb (truthy (trim v)).
Proof. unfold missing. destruct v as [|c v]; reflexivity. Qed.

(** X: the form and the server check the same thing.  What the form
    hands on is accepted by the server, which stores the trimmed title
    and content when the id is new; what the form holds back the server
    would answer with a validation failure, and its reason is the first
    of the errors that the form shows. *)
Theorem form_validation_agrees (t c cat : string) :
  (forall data,
      handleSubmit t c cat = inr data ->
      data = mkForm t c (Some cat)
      /\ forall db new_id now,
           ~ present new_id db ->
           exists n, post_note new_id now (body_of data) db = ((db ++ [n])%list, Ok n)
                     /\ title n = trim t /\ content n = trim c)
  /\ (forall errors,
         handleSubmit t c cat = inl errors ->
         forall db new_id now,
           exists reason,
             post_note new_id now (mkBody (Some t) (Some c) (Some cat)) db
             = (db, ValidationError reason)
             /\ (error_title errors = Some reason
                 \/ (error_title errors = None /\ error_content errors = Some reason))).
Proof.
  unfold handleSubmit. cbn [error_title error_content]. split.
  - intros data H.
    destruct (truthy (trim t)) eqn:Et; [|discriminate H].
    destruct (truthy (trim c)) eqn:Ec; [|discriminate H].
    cbn [negb] in H. injection H as <-. split; [reflexivity|].
    intros db new_id now Hp. apply queryOne_none in Hp.
    destruct (resolve_category_total (Some cat) (trim t) (trim c)) as (label & Hl).
    unfold post_note, insert_row, body_of.
    cbn [body_title body_content manualCategory form_title form_content form_category text_of id].
    rewrite !missing_some, Et, Ec. cbn [negb]. rewrite Hl, Hp.
    eexists. split; [reflexivity|]. split; reflexivity.
  - intros errors H db new_id now. unfold post_note.
    cbn [body_title body_content manualCategory]. rewrite !missing_some.
    destruct (truthy (trim t)) eqn:Et; cbn [negb] in *.
    + destruct (truthy (trim c)) eqn:Ec; cbn [negb] in *; [discriminate H|].
      injection H as <-. eexists. split; [reflexivity|]. right. now split.
    + destruct (truthy (trim c)); cbn [negb] in *; injection H as <-;
        eexists; (split; [reflexivity|]); now left.
Qed.

Lemma form_validation_agrees_witness :
  handleSubmit " Trip " "hotel" "Auto" = inr (mkForm " Trip " "hotel" (Some "Auto"))
  /\ ~ present "n1" []
  /\ exists n, post_note "n1" 1 (body_of (mkForm " Trip " "hotel" (Some "Auto"))) []
               = ([n], Ok n) /\ title n = "Trip".
Proof.
  split; [reflexivity|]. split; [intros []|].
  destruct (proj2 (proj1 (form_validation_agrees " Trip " "hotel" "Auto") _ eq_refl)
              [] "n1" 1%Z) as (n & H & Ht & _).
  - intros [].
  - exists n. split; [exact H | exact Ht].
Defined.

Lemma step_all_known (db : table) (r : request) :
  all_known db -> request_known r -> all_known (step db r).
Proof.
  unfold all_known. intros H Hr.
  destruct (step_cases db r)
    as [-> | [(new_id & now & body & cat & -> & Hc & _ & _ & _ & ->)
           | [(i & now & body & cat & e & -> & Hc & _ & _ & _ & ->)
             | (i & _ & _ & ->)]]]; trivial.
  - apply Forall_app. split; trivial. constructor; [|constructor].
    exact (resolve_category_known _ _ _ _ Hr Hc).
  - unfold update_rows. rewrite Forall_map. rewrite Forall_forall in *.
    intros n Hn. destruct (String.eqb (id n) i); [|now apply H].
    exact (resolve_category_known _ _ _ _ Hr Hc).
  - unfold delete_rows. rewrite Forall_forall in *.
    intros n Hn. apply filter_In in Hn as [Hn _]. now apply H.
Qed.

Lemma form_choice_known (db : table) (t c cat : string) :
  all_known db -> form_choice db cat ->
  choice_known (body_of (mkForm t c (Some cat))).
Proof.
  intros Hdb [Ho | (n & Hn & ->)]; unfold choice_known, body_of; cbn [manualCategory form_category].
  - destruct Ho as [<- | Hs]; [right; now left|]. right. right.
    cbn [CATEGORY_STYLES known_labels In] in *. tauto.
  - unfold initial_category. cbn [form_category].
    destruct (truthy (category n)); [|right; now left]. right. right.
    unfold all_known in Hdb. rewrite Forall_forall in Hdb. now apply Hdb.
Qed.

(** X: when every stored category is one of the eight labels, a create
    or an update that the form sends keeps it so: the category of the
    form is a value of its select or the category with which the edit
    dialog of a stored note opens. *)
Theorem form_keeps_labels (db : table) (t c cat : string) (data : NoteFormData) :
  all_known db -> form_choice db cat -> handleSubmit t c cat = inr data ->
  forall i now,
    all_known (step db (Create i now (body_of data)))
    /\ all_known (step db (Update i now (body_of data))).
Proof.
  intros Hdb Hc Hs i now.
  assert (E : data = mkForm t c (Some cat)).
  { unfold handleSubmit in Hs. cbn [error_title error_content] in Hs.
    destruct (truthy (trim t)); [|discriminate Hs].
    destruct (truthy (trim c)); [|discriminate Hs].
    cbn [negb] in Hs. now injection Hs as <-. }
  subst data. pose proof (form_choice_known db t c cat Hdb Hc) as Hk.
  split; apply step_all_known; trivial.
Qed.

Lemma form_keeps_labels_witness :
  let db := [mkNote "n1" "Exam" "study" "Educational" 1 1] in
  all_known db /\ form_choice db "Finance"
  /\ step db (Update "n1" 5 (body_of (mkForm "Bank" "loan" (Some "Finance"))))
     = [mkNote "n1" "Bank" "loan" "Finance" 1 5]
  /\ all_known (step db (Update "n1" 5 (body_of (mkForm "Bank" "loan" (Some "Finance"))))).
Proof.
  assert (Hdb : all_known [mkNote "n1" "Exam" "study" "Educational" 1 1]).
  { constructor; [|constructor]. cbn [category known_labels In]. tauto. }
  assert (Hc : form_choice [mkNote "n1" "Exam" "study" "Educational" 1 1] "Finance").
  { left. cbn [category_options CATEGORY_STYLES In]. tauto. }
  split; [exact Hdb|]. split; [exact Hc|]. split; [vm_compute; reflexivity|].
  exact (proj2 (form_keeps_labels _ "Bank" "loan" "Finance" _ Hdb Hc eq_refl "n1" 5%Z)).
Defined.

(** *** The page *)

(** X: the categories that the page offers for a list are the
    categories that the server answers for a table with the same notes,
    whatever the order and number of the notes. *)
Theorem available_categories_agree (db : table) (notes : list Note) :
  (forall n, In n notes <-> In n db) ->
  availableCategories notes = categories_in_use db.
Proof.
  intros H. unfold availableCategories, categories_in_use, get_categories.
  apply sort_distinct_ext. intros w. rewrite !in_map_iff.
  split; intros (n & E & Hn); exists n; (split; [exact E|]); now apply H.
Qed.

Lemma available_categories_agree_witness :
  let n1 := mkNote "n1" "Trip" "hotel" "Travel" 1 1 in
  let n2 := mkNote "n2" "Exam" "study" "Educational" 2 2 in
  let n3 := mkNote "n3" "Tour" "beach" "Travel" 3 3 in
  availableCategories (listAll [n1; n2; n3]) = ["Educational"; "Travel"]
  /\ availableCategories (listAll [n1; n2; n3]) = categories_in_use [n1; n2; n3].
Proof.
  split; [reflexivity|].
  apply available_categories_agree. intros n. apply order_by_In.
Defined.

(** X: every category that the page offers, when selected with an empty
    search, shows at least one note, and shows exactly the notes of the
    list that carry it. *)
Theorem offered_category_has_notes (notes : list Note) (c : string) :
  In c (availableCategories notes) -> c <> "" ->
  filteredNotes "" (Some c) notes <> []
  /\ forall n, In n (filteredNotes "" (Some c) notes) <-> In n notes /\ category n = c.
Proof.
  intros Hc Hne. unfold filteredNotes. rewrite searchNotes_blank by reflexivity.
  rewrite (proj2 (truthy_nonempty c) Hne).
  assert (Hin : forall n, In n (filter (fun m => String.eqb (category m) c) notes)
                          <-> In n notes /\ category n = c).
  { intros n. rewrite filter_In, String.eqb_eq. reflexivity. }
  split; [|exact Hin].
  unfold availableCategories in Hc.
  apply (proj2 (sort_distinct_spec (map category notes))) in Hc.
  apply in_map_iff in Hc as (n & E & Hn).
  intros Hnil. assert (Hf : In n (filter (fun m => String.eqb (category m) c) notes))
    by (apply Hin; now split).
  rewrite Hnil in Hf. exact Hf.
Qed.

Lemma offered_category_has_notes_witness :
  let n1 := mkNote "n1" "Trip" "hotel" "Travel" 1 1 in
  let n2 := mkNote "n2" "Exam" "study" "Educational" 2 2 in
  In "Travel" (availableCategories [n1; n2])
  /\ filteredNotes "" (Some "Travel") [n1; n2] = [n1]
  /\ filteredNotes "" (Some "Travel") [n1; n2] <> [].
Proof.
  assert (H : In "Travel" (availableCategories
                             [mkNote "n1" "Trip" "hotel" "Travel" 1 1;
                              mkNote "n2" "Exam" "study" "Educational" 2 2])).
  { right. left. reflexivity. }
  split; [exact H|]. split; [reflexivity|].
  apply (offered_category_has_notes _ "Travel" H). discriminate.
Defined.

End ClientFacts.
